(** * makemake: from the pom.xml descriptors to the Makefile

    A shallow embedding of [makemake.go] (package [main]): the walk over
    [grammars-v4], the aggregation of the parsed descriptors into the
    [projects] map, the derived [generatedFiles] map, and the execution of
    the [MAKEFILE] template into the file [Makefile].

    The package [internal] ([Project], [ParsePom], [PackageName],
    [GeneratedFilenames]) is not part of the sources embedded here; it is an
    interface ([ProjectAPI]) over which everything below is parametric. *)

From Stdlib Require Import String Ascii List Permutation Sorted Lia.
From stdpp Require Import base option list sorting strings gmap fin_maps.

Open Scope string_scope.

(** ** Strings: the functions of package [strings] the program calls *)

(** [strings.HasSuffix(s, suffix)]:
    [len(s) >= len(suffix) && s[len(s)-len(suffix):] == suffix]. *)
Definition HasSuffix (s suffix : string) : bool :=
  (String.length suffix <=? String.length s)%nat &&
  String.eqb
    (String.substring (String.length s - String.length suffix)
                      (String.length suffix) s)
    suffix.

(** [strings.Join(elems, sep)]. *)
Definition Join (elems : list string) (sep : string) : string :=
  String.concat sep elems.

(** The template function [Concat]: appends its arguments left to right,
    starting from the empty string. *)
Definition Concat (strs : list string) : string :=
  fold_left (fun results s => results ++ s) strs "".

(** [sort.Strings]: sorts in increasing byte-wise order. *)
Definition sortStrings (l : list string) : list string :=
  merge_sort String.le l.

(** ** Constants of [makemake.go] *)

Definition GRAMMARS_ROOT : string := "grammars-v4".

(** [IGNORE]: these projects are not built. *)
Definition IGNORE : list string := [ "objc"; "swift-fin" ].

(** [onIgnoreList] returns true if the pom file in the path is on the banned
    list. *)
Fixpoint onIgnoreList_from (ignores : list string) (path : string) : bool :=
  match ignores with
  | [] => false
  | ignore :: rest =>
      if HasSuffix path ("/" ++ ignore ++ "/pom.xml") then true
      else onIgnoreList_from rest path
  end.

Definition onIgnoreList (path : string) : bool :=
  onIgnoreList_from IGNORE path.

(** ** The interface of package [internal] *)

(** Go's [error] values, kept by their message. *)
Definition error : Type := string.

(** What [makemake.go] uses of [*internal.Project]: two fields read by the
    walk, the field printed by the template, and two methods. *)
Class ProjectAPI (Project : Type) := {
  FoundAntlr4MavenPlugin : Project -> bool;
  Includes : Project -> list string;
  FilePrefix : Project -> string;
  PackageName : Project -> string;
  GeneratedFilenames : Project -> list string;
}.

(** ** The machine the program runs on *)

(** One run sees: the visits [filepath.Walk] makes below [GRAMMARS_ROOT], in
    its (lexical) order, each with the error the walk met at that path, if
    any; what [internal.ParsePom] returns for a path; whether
    [os.Create] fails; and for the n-th write to the created file
    whether it fails. *)
Record Env (Project : Type) := {
  walked : list (string * option error);
  ParsePom : string -> error + Project;
  createError : option error;
  writeError : nat -> option error;
}.
Arguments walked {Project} _.
Arguments ParsePom {Project} _ _.
Arguments createError {Project} _.
Arguments writeError {Project} _ _.

(** Go visits the keys of a map in an unspecified order, which may differ from
    one [range] statement to the next. [main] ranges over [projects] twice. *)
Record MapOrder (Project : Type) := {
  rangeNames : gmap string Project -> list (string * Project);
  rangeGenerated : gmap string Project -> list (string * Project);
}.
Arguments rangeNames {Project} _ _.
Arguments rangeGenerated {Project} _ _.

Definition MapOrder_ok {Project} (o : MapOrder Project) : Prop :=
  forall m, rangeNames o m ≡ₚ map_to_list m /\
            rangeGenerated o m ≡ₚ map_to_list m.

(** The lines [log.Printf] prints, and the reasons [log.Fatalf] ends the run
    with, kept with their arguments rather than formatted. *)
Inductive LogLine :=
| Skipping (path : string).   (* skipping %q as it contains no grammars *)

Inductive Fatal :=
| FailedToWalk (err : error)           (* failed to walk: %s *)
| TooFewGenerated (generated : list string) (name : string)
    (* Expect atleast two generated files, only got: %q for %q *)
| FailedToCreate (err : error)         (* failed to create Makefile: %s *)
| FailedToGenerate (err : error).      (* failed to generate Makefile: %s *)

(** What a run changes: the map [projects] of [main], the calls made to
    [internal.ParsePom] with their results, the log, and the file
    [Makefile]: [None] while the run has not touched it, [Some text] once
    [os.Create] has created or truncated it, with the text written since. *)
Record World (Project : Type) := {
  projects : gmap string Project;
  parsed : list (string * (error + Project));
  logged : list LogLine;
  Makefile : option string;
}.
Arguments projects {Project} _.
Arguments parsed {Project} _.
Arguments logged {Project} _.
Arguments Makefile {Project} _.

Definition start {Project} : World Project :=
  {| projects := ∅; parsed := []; logged := []; Makefile := None |}.

(** ** Effects: state, and [log.Fatalf] as the only way out *)

Definition M (Project A : Type) : Type :=
  World Project -> World Project * (Fatal + A).

Definition ret {Project A} (a : A) : M Project A := fun w => (w, inr a).

Definition bind {Project A B} (m : M Project A) (k : A -> M Project B)
  : M Project B :=
  fun w => match m w with
           | (w', inl f) => (w', inl f)
           | (w', inr a) => k a w'
           end.

Notation "x <- m ;; k" := (bind m (fun x => k))
  (at level 100, m at next level, right associativity).
Notation "m ;;; k" := (bind m (fun _ => k))
  (at level 100, right associativity).

Definition Fatalf {Project A} (f : Fatal) : M Project A := fun w => (w, inl f).

Definition Printf {Project} (l : LogLine) : M Project unit :=
  fun w => ({| projects := projects w; parsed := parsed w;
               logged := logged w ++ [l]; Makefile := Makefile w |}, inr tt).

Definition getProjects {Project} : M Project (gmap string Project) :=
  fun w => (w, inr (projects w)).

(** [projects[name] = p] *)
Definition setProject {Project} (name : string) (p : Project) : M Project unit :=
  fun w => ({| projects := <[name := p]> (projects w); parsed := parsed w;
               logged := logged w; Makefile := Makefile w |}, inr tt).

Section Program.
Context {Project : Type} `{ProjectAPI Project}.
Variable env : Env Project.

(** [internal.ParsePom(path)], the call recorded. *)
Definition callParsePom (path : string) : M Project (error + Project) :=
  fun w => let r := ParsePom env path in
           ({| projects := projects w; parsed := parsed w ++ [(path, r)];
               logged := logged w; Makefile := Makefile w |}, inr r).

(** ** The walk *)

(** The function [main] passes to [filepath.Walk]. Its result is the error it
    returns to the walk. *)
Definition walkFn (path : string) (err : option error) : M Project (option error) :=
  if (if err is None then true else false) && HasSuffix path "/pom.xml" then
    if onIgnoreList path then ret None
    else
      r <- callParsePom path ;;
      match r with
      | inl err' => ret (Some err')
      | inr p =>
          (* Ignore pom files which don't even have the Antlr plugin *)
          if negb (FoundAntlr4MavenPlugin p) then ret None
          else if (length (Includes p) =? 0)%nat then
            (Printf (Skipping path) ;;; ret None)
          else
            (setProject (PackageName p) p ;;; ret err)
      end
  else ret err.

(** [filepath.Walk]: calls the function at each visit, in order, and stops
    with the first error the function returns. *)
Fixpoint Walk (fn : string -> option error -> M Project (option error))
         (visits : list (string * option error)) : M Project (option error) :=
  match visits with
  | [] => ret None
  | (path, err) :: rest =>
      r <- fn path err ;;
      match r with
      | Some e => ret (Some e)
      | None => Walk fn rest
      end
  end.

(** ** After the walk: names and generated files *)

(** [for name := range projects { grammars = append(grammars, name) }] *)
Definition appendNames (l : list (string * Project)) : list string :=
  fold_left (fun grammars '(name, _) => (grammars ++ [name])%list) l [].

(** The inner loop over [project.GeneratedFilenames()]: the full path to each
    generated file. *)
Definition appendGenerated (name : string) (files : list string) : list string :=
  fold_left (fun generated file => (generated ++ [(name ++ "/" ++ file)%string])%list)
            files [].

(** [for name, project := range projects { ... }], filling [generatedFiles]. *)
Fixpoint generatedLoop (l : list (string * Project))
         (generatedFiles : gmap string (list string))
  : M Project (gmap string (list string)) :=
  match l with
  | [] => ret generatedFiles
  | (name, project) :: rest =>
      let generated := appendGenerated name (GeneratedFilenames project) in
      let generatedFiles := <[name := generated]> generatedFiles in
      if (length generated <? 2)%nat then
        Fatalf (TooFewGenerated generated name)
      else generatedLoop rest generatedFiles
  end.

End Program.

(** ** The template *)

Record templateData (Project : Type) := {
  Grammars : list string;
  Projects : gmap string Project;
  GeneratedFiles : gmap string (list string);
}.
Arguments Grammars {Project} _.
Arguments Projects {Project} _.
Arguments GeneratedFiles {Project} _.

Definition nl : string := String "010"%char EmptyString.
Definition dquote : ascii := "034"%char.

(** [MAKEFILE] is a Go raw string between backquotes, so it holds no
    backquote. Its text is written below with a backquote wherever the
    template has a double quote; [goRaw] puts the double quotes back. *)
Fixpoint goRaw (s : string) : string :=
  match s with
  | EmptyString => EmptyString
  | String c rest =>
      String (if Ascii.eqb c "`"%char then dquote else c) (goRaw rest)
  end.

(** The text of [MAKEFILE] up to its first action. *)
Definition TEXT_HEADER : string := goRaw
"# Copyright 2017 Google Inc.
#
# Licensed under the Apache License, Version 2.0 (the `License`);
# you may not use this file except in compliance with the License.
# You may obtain a copy of the License at
#
#     https://www.apache.org/licenses/LICENSE-2.0
#
# Unless required by applicable law or agreed to in writing, software
# distributed under the License is distributed on an `AS IS` BASIS,
# WITHOUT WARRANTIES OR CONDITIONS OF ANY KIND, either express or implied.
# See the License for the specific language governing permissions and
# limitations under the License.

#
# Do not edit this file, it is generated by makemake.go
#
MAKEFLAGS += --no-builtin-rules

.PHONY: all antlr clean rebuild test
.SILENT:
.DELETE_ON_ERROR:
.SUFFIXES:

ANTLR_BIN := $(PWD)/.bin/antlr-4.7-complete.jar
ANTLR_URL := http://www.antlr.org/download/antlr-4.7-complete.jar
ANTLR_ARGS := -Dlanguage=Go -visitor

GRAMMARS := ".

(** From there to the first [range]. *)
Definition TEXT_TEST : string := goRaw
"

LANG_COLOR = \033[0;36m
NO_COLOR   = \033[m

# This is the default target
rebuild: antlr test

all:
	go run makemake.go
	make clean
	make -k -j2 rebuild 2> /dev/null

clean:
	@rm -r $(GRAMMARS) 2> /dev/null || true

antlr: $(ANTLR_BIN)
$(ANTLR_BIN):
	mkdir -p .bin
	curl -o $@ $(ANTLR_URL)

test: ".

(** From the last [end] to the end of the template. *)
Definition TEXT_RULES : string := goRaw
"

%_lexer.go %_parser.go:
	lang=$$(dirname $@); \
	errors=$$lang/$$(basename $*).errors; \
	mkdir -p $$lang; \
	pushd $$(dirname $<) > /dev/null; \
	java -jar $(ANTLR_BIN) $(ANTLR_ARGS) -package $$lang $(notdir $^) -o ../../$$lang > ../../$$errors 2>&1; \
	RET=$$?; \
	popd > /dev/null; \
	if [ $$RET -ne 0 ]; then \
		printf `| %s  | $(LANG_COLOR)%-15s$(NO_COLOR) | %-75s |\n` `❌` `$$lang` `antlr: $$(tail -n 1 $$errors)`; \
		rm $$lang/*.go > /dev/null 2>&1 || true; \
		exit $$RET; \
	fi; \
	shopt -s nullglob; \
	go build $*_*.go $*parser_*.go >> $$errors 2>&1; \
	RET=$$?; \
	if [ $$RET -ne 0 ]; then \
		printf `| %s  | $(LANG_COLOR)%-15s$(NO_COLOR) | %-75s |\n` `❌` `$$lang` `build: $$(tail -n 1 $$errors)`; \
		exit $$RET; \
	fi;

%_test.go:
	lang=$$(dirname $@); \
	errors=$$lang/$$(basename $*).errors; \
	go run maketest.go $$lang >> $$errors 2>&1; \
	RET=$$?; \
	if [ $$RET -ne 0 ]; then \
		printf `| %s  | $(LANG_COLOR)%-15s$(NO_COLOR) | %-75s |\n` `❌` `$$lang` `maketest: $$(tail -n 1 $$errors)`; \
		exit $$RET; \
	fi; \
	go test -timeout 10s ./$$lang >> $$errors 2>&1; \
	RET=$$?; \
	if [ $$RET -ne 0 ]; then \
		printf `| %s  | $(LANG_COLOR)%-15s$(NO_COLOR) | %-75s |\n` `❌` `$$lang` ` test: $$(tail -n 1 $$errors)`; \
		exit $$RET; \
	fi; \
	if [[ -s $$errors ]]; then \
		rm $$errors; \
		printf `| %s  | $(LANG_COLOR)%-15s$(NO_COLOR) | %-75s |\n` `✅` `$$lang` ``; \
	else \
		printf `| %s  | $(LANG_COLOR)%-15s$(NO_COLOR) | %-75s |\n` `⚠️` `$$lang` `$$(tail -n 1 $$errors)`; \
	fi;
".

Section Run.
Context {Project : Type} `{ProjectAPI Project}.
Variable env : Env Project.
Variable order : MapOrder Project.

(** [range] over a map inside a template visits the keys in sorted order. *)
Definition rangeSorted (m : gmap string Project) : list (string * Project) :=
  omap (fun name => (fun p => (name, p)) <$> m !! name)
       (sortStrings (map_to_list m).*1).

(** The body of the first [range]: the test file of every project. *)
Definition testTargets (data : templateData Project) : list string :=
  flat_map (fun '(name, project) =>
              [name; "/"; FilePrefix project; "_test.go "])
           (rangeSorted (Projects data)).

(** The body of the second [range]: three rules for every project. A missing
    key makes [index] return the empty list. *)
Definition projectRules (data : templateData Project) : list string :=
  flat_map (fun '(name, project) =>
              let genfiles :=
                Join (default [] (GeneratedFiles data !! name)) " " in
              let testfile :=
                Concat [name; "/"; FilePrefix project; "_test.go"] in
              [nl; nl; name; ": "; testfile; nl;
               genfiles; ": "; Join (Includes project) " "; nl;
               testfile; ": "; genfiles])
           (rangeSorted (Projects data)).

(** What executing [MAKEFILE] with [data] writes, one piece for each text
    and each printing action, in order. *)
Definition pieces (data : templateData Project) : list string :=
  ([TEXT_HEADER; Join (Grammars data) " "; TEXT_TEST]
   ++ testTargets data ++ [(nl ++ nl)%string]
   ++ projectRules data ++ [TEXT_RULES])%list.

(** The whole text of a complete execution. *)
Definition rendered (data : templateData Project) : string :=
  Concat (pieces data).

(** [os.Create("Makefile")]: creates or truncates the file, unless it fails. *)
Definition osCreate : M Project (option error) :=
  fun w => match createError env with
           | Some e => (w, inr (Some e))
           | None => ({| projects := projects w; parsed := parsed w;
                         logged := logged w; Makefile := Some "" |}, inr None)
           end.

(** A write to [out]. *)
Definition fileWrite (s : string) : M Project unit :=
  fun w => ({| projects := projects w; parsed := parsed w; logged := logged w;
               Makefile := (fun text => text ++ s) <$> Makefile w |}, inr tt).

(** [makeTemplate.Execute(out, data)]: the pieces are written to [out] as they
    are produced; the first write that fails stops the execution with its
    error, and what was written before stays written. [n] counts the writes. *)
Fixpoint writePieces (ps : list string) (n : nat) : M Project (option error) :=
  match ps with
  | [] => ret None
  | s :: rest =>
      match writeError env n with
      | Some e => ret (Some e)
      | None => fileWrite s ;;; writePieces rest (S n)
      end
  end.

Definition Execute (data : templateData Project) : M Project (option error) :=
  writePieces (pieces data) 0.

(** ** [main] *)

(** The first half of [main]: the walk, the sorted names, the generated
    files, gathered in the [templateData]. *)
Definition aggregate : M Project (templateData Project) :=
  err <- Walk (walkFn env) (walked env) ;;
  match err with
  | Some e => Fatalf (FailedToWalk e)
  | None =>
      projects <- getProjects ;;
      let grammars := sortStrings (appendNames (rangeNames order projects)) in
      generatedFiles <- generatedLoop (rangeGenerated order projects) ∅ ;;
      ret {| Grammars := grammars; Projects := projects;
             GeneratedFiles := generatedFiles |}
  end.

(** The second half: create the file and execute the template into it.
    ([MAKEFILE] is a constant that parses, so [template.Must] returns.) *)
Definition render (data : templateData Project) : M Project unit :=
  err <- osCreate ;;
  match err with
  | Some e => Fatalf (FailedToCreate e)
  | None =>
      err <- Execute data ;;
      match err with
      | Some e => Fatalf (FailedToGenerate e)
      | None => ret tt
      end
  end.

Definition main : M Project unit :=
  data <- aggregate ;;
  render data.

End Run.

(** ** Notions used to state the properties *)

Section Notions.
Context {Project : Type} `{ProjectAPI Project}.

(** A parsed project is kept when it has the plugin and at least one
    include. *)
Definition retained (p : Project) : bool :=
  FoundAntlr4MavenPlugin p && negb (length (Includes p) =? 0)%nat.

(** The effect of one recorded [ParsePom] call on [projects]. *)
Definition keep (m : gmap string Project) (call : string * (error + Project))
  : gmap string Project :=
  match call.2 with
  | inr p => if retained p then <[PackageName p := p]> m else m
  | inl _ => m
  end.

Definition replay (calls : list (string * (error + Project)))
           (m : gmap string Project) : gmap string Project :=
  fold_left keep calls m.

(** The world after more parser calls and more log lines. *)
Definition extend (w : World Project)
           (calls : list (string * (error + Project))) (logs : list LogLine)
  : World Project :=
  {| projects := replay calls (projects w);
     parsed := (parsed w ++ calls)%list;
     logged := (logged w ++ logs)%list;
     Makefile := Makefile w |}.

(** The same machine with other visits, or with other file contents. *)
Definition withWalked (env : Env Project)
           (visits : list (string * option error)) : Env Project :=
  {| walked := visits; ParsePom := ParsePom env;
     createError := createError env; writeError := writeError env |}.

Definition withParsePom (env : Env Project)
           (parse : string -> error + Project) : Env Project :=
  {| walked := walked env; ParsePom := parse;
     createError := createError env; writeError := writeError env |}.

End Notions.

(** ** A sample implementation, for concrete runs *)

(** Modelled from the spec: the Project of the data model (name, includes,
    generationEnabled, filePrefix), with the names of its generated files
    stored next to them, since the naming convention of the deriver is not
    part of the sources. It stands in for [internal.Project] in the concrete
    runs only; the properties are proved for every implementation. *)
Record SampleProject := {
  sp_name : string;
  sp_includes : list string;
  sp_plugin : bool;
  sp_filePrefix : string;
  sp_generated : list string;
}.

#[global] Instance SampleAPI : ProjectAPI SampleProject := {|
  FoundAntlr4MavenPlugin := sp_plugin;
  Includes := sp_includes;
  FilePrefix := sp_filePrefix;
  PackageName := sp_name;
  GeneratedFilenames := sp_generated;
|}.

(** A parser given by a table from paths to results. *)
Definition parseTable (table : list (string * (error + SampleProject)))
           (path : string) : error + SampleProject :=
  match find (fun entry => String.eqb entry.1 path) table with
  | Some entry => entry.2
  | None => inl "no such file"
  end.

Definition sampleEnv (visits : list (string * option error))
           (table : list (string * (error + SampleProject)))
           (create : option error) (write : nat -> option error)
  : Env SampleProject :=
  {| walked := visits; ParsePom := parseTable table;
     createError := create; writeError := write |}.

Definition neverFails : nat -> option error := fun _ => None.

(** Two visiting orders of a map: the one of [map_to_list], and one that
    visits the names backwards and the generated files forwards. *)
Definition orderListed : MapOrder SampleProject :=
  {| rangeNames := map_to_list; rangeGenerated := map_to_list |}.

Definition orderMixed : MapOrder SampleProject :=
  {| rangeNames := fun m => reverse (map_to_list m);
     rangeGenerated := fun m => reverse (map_to_list m) |}.

Definition proj : SampleProject :=
  {| sp_name := "proj"; sp_includes := ["A.g4"; "ALexer.g4"];
     sp_plugin := true; sp_filePrefix := "proj";
     sp_generated := ["A_lexer.go"; "A_parser.go"] |}.

Definition abnf : SampleProject :=
  {| sp_name := "abnf"; sp_includes := ["Abnf.g4"];
     sp_plugin := true; sp_filePrefix := "abnf";
     sp_generated := ["abnf_lexer.go"; "abnf_parser.go"] |}.

(** A second descriptor that derives the name [proj]. *)
Definition projAgain : SampleProject :=
  {| sp_name := "proj"; sp_includes := ["B.g4"];
     sp_plugin := true; sp_filePrefix := "b";
     sp_generated := ["b_lexer.go"; "b_parser.go"] |}.

(** A descriptor with the plugin and no include. *)
Definition noIncludes : SampleProject :=
  {| sp_name := "empty"; sp_includes := [];
     sp_plugin := true; sp_filePrefix := "empty"; sp_generated := [] |}.

(** A descriptor without the plugin, hence without includes. *)
Definition noPlugin : SampleProject :=
  {| sp_name := "parent"; sp_includes := [];
     sp_plugin := false; sp_filePrefix := "parent"; sp_generated := [] |}.

(** A descriptor for which a single file would be generated. *)
Definition lexerOnly : SampleProject :=
  {| sp_name := "lex"; sp_includes := ["Lex.g4"];
     sp_plugin := true; sp_filePrefix := "lex";
     sp_generated := ["lex_lexer.go"] |}.

Definition sampleTable : list (string * (error + SampleProject)) :=
  [ ("grammars-v4/proj/pom.xml", inr proj);
    ("grammars-v4/abnf/pom.xml", inr abnf);
    ("grammars-v4/zz/pom.xml", inr projAgain);
    ("grammars-v4/empty/pom.xml", inr noIncludes);
    ("grammars-v4/pom.xml", inr noPlugin);
    ("grammars-v4/lex/pom.xml", inr lexerOnly);
    ("grammars-v4/objc/pom.xml", inr abnf);
    ("grammars-v4/broken/pom.xml", inl "XML syntax error") ].

(** The tree of the example of the spec, and one more project. *)
Definition visitsTwo : list (string * option error) :=
  [ ("grammars-v4", None);
    ("grammars-v4/abnf", None);
    ("grammars-v4/abnf/Abnf.g4", None);
    ("grammars-v4/abnf/pom.xml", None);
    ("grammars-v4/proj", None);
    ("grammars-v4/proj/A.g4", None);
    ("grammars-v4/proj/ALexer.g4", None);
    ("grammars-v4/proj/pom.xml", None) ].

Definition envTwo : Env SampleProject :=
  sampleEnv visitsTwo sampleTable None neverFails.

(** The tree of the example alone. *)
Definition envExample : Env SampleProject :=
  sampleEnv [ ("grammars-v4", None);
              ("grammars-v4/proj", None);
              ("grammars-v4/proj/A.g4", None);
              ("grammars-v4/proj/ALexer.g4", None);
              ("grammars-v4/proj/pom.xml", None) ]
            sampleTable None neverFails.

(** The same tree with a descriptor of an ignored project in it. *)
Definition visitsIgnored : list (string * option error) :=
  [ ("grammars-v4", None);
    ("grammars-v4/abnf/pom.xml", None);
    ("grammars-v4/objc/pom.xml", None);
    ("grammars-v4/proj/pom.xml", None) ].

Definition envIgnored : Env SampleProject :=
  sampleEnv visitsIgnored sampleTable None neverFails.

(** A malformed descriptor between two good ones. *)
Definition visitsBroken : list (string * option error) :=
  [ ("grammars-v4", None);
    ("grammars-v4/abnf/pom.xml", None);
    ("grammars-v4/broken/pom.xml", None);
    ("grammars-v4/proj/pom.xml", None) ].

Definition envBroken : Env SampleProject :=
  sampleEnv visitsBroken sampleTable None neverFails.

(** Two descriptors that derive the name [proj]. *)
Definition visitsCollision : list (string * option error) :=
  [ ("grammars-v4/proj/pom.xml", None);
    ("grammars-v4/zz/pom.xml", None) ].

Definition envCollision : Env SampleProject :=
  sampleEnv visitsCollision sampleTable None neverFails.

(** A descriptor with the plugin and no include, between two good ones. *)
Definition visitsEmpty : list (string * option error) :=
  [ ("grammars-v4/abnf/pom.xml", None);
    ("grammars-v4/empty/pom.xml", None);
    ("grammars-v4/proj/pom.xml", None) ].

Definition envEmpty : Env SampleProject :=
  sampleEnv visitsEmpty sampleTable None neverFails.

(** The descriptor at the root of the tree, which has no plugin. *)
Definition visitsParent : list (string * option error) :=
  [ ("grammars-v4", None);
    ("grammars-v4/pom.xml", None) ].

Definition envParent : Env SampleProject :=
  sampleEnv visitsParent sampleTable None neverFails.

(** A project with a single generated file next to a good one. *)
Definition visitsLexerOnly : list (string * option error) :=
  [ ("grammars-v4/abnf/pom.xml", None);
    ("grammars-v4/lex/pom.xml", None) ].

Definition envLexerOnly : Env SampleProject :=
  sampleEnv visitsLexerOnly sampleTable None neverFails.



(** The world after a walk, and the outcome of an aggregation. *)
Definition walkedWorld (env : Env SampleProject)
           (visits : list (string * option error)) : World SampleProject :=
  (Walk (walkFn env) visits start).1.

Definition aggregated (env : Env SampleProject) : templateData SampleProject :=
  match (aggregate env orderListed start).2 with
  | inr data => data
  | inl _ => {| Grammars := []; Projects := ∅; GeneratedFiles := ∅ |}
  end.

(** ** More notions: the parser calls, the log and the mapping of a walk *)

Section WalkNotions.
Context {Project : Type} `{ProjectAPI Project}.

(** A visit is handed to the parser when the walk met no error there, the
    path ends in [/pom.xml] and it is not on the ignore list. *)
Definition isDescriptor (visit : string * option error) : bool :=
  (if visit.2 is None then true else false)
  && HasSuffix visit.1 "/pom.xml" && negb (onIgnoreList visit.1).

Definition descriptorCalls (env : Env Project)
           (visits : list (string * option error))
  : list (string * (error + Project)) :=
  map (fun visit => (visit.1, ParsePom env visit.1))
      (List.filter isDescriptor visits).

(** The line logged for a parser call, if any: descriptors with the plugin
    and no include. *)
Definition skippedLine (call : string * (error + Project)) : option LogLine :=
  match call.2 with
  | inr p =>
      if FoundAntlr4MavenPlugin p && (length (Includes p) =? 0)%nat
      then Some (Skipping call.1) else None
  | inl _ => None
  end.

(** The projects the calls keep under the name [k], in order. *)
Definition keptAs (k : string) (call : string * (error + Project))
  : option Project :=
  match call.2 with
  | inr p => if retained p && String.eqb (PackageName p) k then Some p else None
  | inl _ => None
  end.

(** The rules the template writes for one project. *)
Definition rulesOf (data : templateData Project) (name : string) (p : Project)
  : list string :=
  let genfiles := Join (default [] (GeneratedFiles data !! name)) " " in
  let testfile := Concat [name; "/"; FilePrefix p; "_test.go"] in
  [nl; nl; name; ": "; testfile; nl;
   genfiles; ": "; Join (Includes p) " "; nl;
   testfile; ": "; genfiles].

End WalkNotions.

(** A walk that meets an error below the root. *)
Definition visitsUnreadable : list (string * option error) :=
  [ ("grammars-v4", None);
    ("grammars-v4/abnf/pom.xml", None);
    ("grammars-v4/locked", Some "permission denied");
    ("grammars-v4/proj/pom.xml", None) ].

Definition envUnreadable : Env SampleProject :=
  sampleEnv visitsUnreadable sampleTable None neverFails.

(** The tree of [envTwo] in a directory where no file can be created. *)
Definition envReadOnly : Env SampleProject :=
  sampleEnv visitsTwo sampleTable (Some "read-only file system") neverFails.

(** ** The sibling tool [internal/tools/makemake.go]: finding the grammars

    Its [main] begins with a walk that gathers the [.g4] files by grammar
    name; that walk and [containAny] are embedded here. *)

(** [strings.Contains(s, substr)]: [substr] occurs in [s] at some position. *)
Fixpoint Contains (s substr : string) : bool :=
  String.prefix substr s ||
  match s with
  | EmptyString => false
  | String _ rest => Contains rest substr
  end.

Fixpoint containAny (name : string) (any : list string) : bool :=
  match any with
  | [] => false
  | a :: rest => if Contains name a then true else containAny name rest
  end.

Definition IGNORE_PATHS : list string :=
  [ "/antlr4/examples/";
    "/CSharpSharwell/"; "/Python/"; "/CSharp/"; "/JavaScript/";
    "/two-step-processing/";
    "/python3-js/"; "/python3-py/"; "/python3-ts/";
    ".TypeScriptTarget."; ".JavaScriptTarget."; ".PythonTarget.";
    "/LexBasic.g4"; "ecmascript/ECMAScript.g4" ].

(** What the walk uses of [*internal.Grammar]: the field [Name]. *)
Class GrammarAPI (Grammar : Type) := {
  Name : Grammar -> string;
}.

(** The visits of the walk and what [internal.ParseG4] returns for a path. *)
Record G4Env (Grammar : Type) := {
  g4visits : list (string * option error);
  ParseG4 : string -> error + Grammar;
}.
Arguments g4visits {Grammar} _.
Arguments ParseG4 {Grammar} _ _.

Inductive G4Fatal (Grammar : Type) :=
| MultipleG4 (name : string) (first : Grammar) (path : string)
    (* Multiple g4 files generate the same grammar: %q: %q %q *)
| G4FailedToWalk (err : error).        (* failed to walk: %s *)
Arguments MultipleG4 {Grammar} _ _ _.
Arguments G4FailedToWalk {Grammar} _.

(** The map [g4s] of [main] and the calls made to [internal.ParseG4]. *)
Record G4World (Grammar : Type) := {
  g4s : gmap string (list Grammar);
  g4parsed : list (string * (error + Grammar));
}.
Arguments g4s {Grammar} _.
Arguments g4parsed {Grammar} _.

Definition g4start {Grammar} : G4World Grammar :=
  {| g4s := ∅; g4parsed := [] |}.

Section Tools.
Context {Grammar : Type} `{GrammarAPI Grammar}.
(** [strings.ToLower]. *)
Variable ToLower : string -> string.
Variable env : G4Env Grammar.

(** The function [main] passes to [filepath.Walk]: the ignored paths come
    first, before the error of the walk is looked at, and the function
    returns that error to nobody. [g4s[name]] of a missing name is the empty
    list. *)
Definition walkG4 (path : string) (err : option error) (w : G4World Grammar)
  : G4World Grammar * (G4Fatal Grammar + option error) :=
  if containAny path IGNORE_PATHS then (w, inr None)
  else if (if err is None then true else false) && HasSuffix path ".g4" then
    let r := ParseG4 env path in
    let called := (g4parsed w ++ [(path, r)])%list in
    match r with
    | inl err' => ({| g4s := g4s w; g4parsed := called |}, inr (Some err'))
    | inr g4 =>
        let name := ToLower (Name g4) in
        match default [] (g4s w !! name) with
        | first :: _ =>
            ({| g4s := g4s w; g4parsed := called |},
             inl (MultipleG4 name first path))
        | [] =>
            ({| g4s := <[name := (default [] (g4s w !! name) ++ [g4])%list]>
                         (g4s w);
                g4parsed := called |}, inr None)
        end
    end
  else (w, inr None).

(** [filepath.Walk] with this function, which can also end the run. *)
Fixpoint WalkG4 (visits : list (string * option error)) (w : G4World Grammar)
  : G4World Grammar * (G4Fatal Grammar + option error) :=
  match visits with
  | [] => (w, inr None)
  | (path, err) :: rest =>
      match walkG4 path err w with
      | (w', inl f) => (w', inl f)
      | (w', inr (Some e)) => (w', inr (Some e))
      | (w', inr None) => WalkG4 rest w'
      end
  end.

(** The beginning of [main]: the walk, fatal if it returns an error. *)
Definition findG4s : G4World Grammar * (G4Fatal Grammar + gmap string (list Grammar)) :=
  match WalkG4 (g4visits env) g4start with
  | (w, inl f) => (w, inl f)
  | (w, inr (Some e)) => (w, inl (G4FailedToWalk e))
  | (w, inr None) => (w, inr (g4s w))
  end.

End Tools.

Section ToolsNotions.
Context {Grammar : Type} `{GrammarAPI Grammar}.
Variable ToLower : string -> string.
Variable env : G4Env Grammar.

(** What holds of the world all along the walk: every parser call was made
    on a path that ends in [.g4] and holds none of the ignored strings, at a
    visit without an error of the walk; and every entry of [g4s] is a list
    of one grammar, parsed with success, under its name in lower case. *)
Definition g4Inv (visits : list (string * option error))
           (w : G4World Grammar) : Prop :=
  (forall path r, (path, r) ∈ g4parsed w ->
     (path, None) ∈ visits /\ HasSuffix path ".g4" = true /\
     containAny path IGNORE_PATHS = false /\ r = ParseG4 env path) /\
  (forall name l, g4s w !! name = Some l ->
     exists g path, l = [g] /\ ToLower (Name g) = name /\
                    (path, inr g) ∈ g4parsed w).

(** The same machine with other visits. *)
Definition g4WithVisits (visits : list (string * option error))
  : G4Env Grammar :=
  {| g4visits := visits; ParseG4 := ParseG4 env |}.

End ToolsNotions.

(** A sample grammar type and tree for concrete runs of the tool. *)
Record SampleGrammar := { sg_name : string; sg_file : string }.

#[global] Instance SampleGrammarAPI : GrammarAPI SampleGrammar := {|
  Name := sg_name;
|}.

(** Lower case of the ASCII letters, as [strings.ToLower] on ASCII text. *)
Definition asciiLower (c : ascii) : ascii :=
  let n := Ascii.nat_of_ascii c in
  if ((65 <=? n) && (n <=? 90))%nat then Ascii.ascii_of_nat (n + 32) else c.

Fixpoint lowerASCII (s : string) : string :=
  match s with
  | EmptyString => EmptyString
  | String c rest => String (asciiLower c) (lowerASCII rest)
  end.

Definition g4Table : list (string * (error + SampleGrammar)) :=
  [ ("grammars-v4/json/JSON.g4",
     inr {| sg_name := "JSON"; sg_file := "grammars-v4/json/JSON.g4" |});
    ("grammars-v4/json2/Json.g4",
     inr {| sg_name := "Json"; sg_file := "grammars-v4/json2/Json.g4" |});
    ("grammars-v4/abnf/Abnf.g4",
     inr {| sg_name := "Abnf"; sg_file := "grammars-v4/abnf/Abnf.g4" |});
    ("grammars-v4/python3-js/Python3.g4",
     inr {| sg_name := "Python3";
            sg_file := "grammars-v4/python3-js/Python3.g4" |});
    ("grammars-v4/bad/Bad.g4", inl "no grammar name") ].

Definition parseG4Table (path : string) : error + SampleGrammar :=
  match find (fun entry => String.eqb entry.1 path) g4Table with
  | Some entry => entry.2
  | None => inl "no such file"
  end.

Definition g4EnvOf (visits : list (string * option error)) : G4Env SampleGrammar :=
  {| g4visits := visits; ParseG4 := parseG4Table |}.

(** Trees for the tool: two grammars; a second grammar named [json] up to
    case; a file that does not parse; an ignored directory that cannot be
    read. *)
Definition g4VisitsGood : list (string * option error) :=
  [ ("grammars-v4", None);
    ("grammars-v4/abnf/Abnf.g4", None);
    ("grammars-v4/json/JSON.g4", None) ].

Definition g4VisitsTwice : list (string * option error) :=
  [ ("grammars-v4", None);
    ("grammars-v4/abnf/Abnf.g4", None);
    ("grammars-v4/json/JSON.g4", None);
    ("grammars-v4/json2/Json.g4", None) ].

Definition g4VisitsBad : list (string * option error) :=
  [ ("grammars-v4/abnf/Abnf.g4", None);
    ("grammars-v4/bad/Bad.g4", None);
    ("grammars-v4/json/JSON.g4", None) ].

Definition g4VisitsIgnored : list (string * option error) :=
  [ ("grammars-v4/abnf/Abnf.g4", None);
    ("grammars-v4/python3-js/Python3.g4", Some "permission denied");
    ("grammars-v4/json/JSON.g4", None) ].

Definition grammarJSON : SampleGrammar :=
  {| sg_name := "JSON"; sg_file := "grammars-v4/json/JSON.g4" |}.

Definition grammarJson : SampleGrammar :=
  {| sg_name := "Json"; sg_file := "grammars-v4/json2/Json.g4" |}.

(** * Properties *)

(** From here on [++] appends lists; strings are appended with [+:+]. *)
Open Scope list_scope.

Example HasSuffix_pom : HasSuffix "grammars-v4/abnf/pom.xml" "/pom.xml" = true.
Proof. reflexivity. Qed.

Example HasSuffix_short : HasSuffix "pom.xml" "/pom.xml" = false.
Proof. reflexivity. Qed.

Example onIgnoreList_objc : onIgnoreList "grammars-v4/objc/pom.xml" = true.
Proof. reflexivity. Qed.

Example goRaw_quotes : goRaw "a`b" = "a" +:+ String dquote "b".
Proof. reflexivity. Qed.

Example onIgnoreList_nested :
  onIgnoreList "grammars-v4/objc/sub/pom.xml" = false.
Proof. reflexivity. Qed.

(** ** What the walk does, visit by visit *)

Section WalkFacts.
Context {Project : Type} `{ProjectAPI Project}.
Variable env : Env Project.

Lemma retained_true p :
  retained p = true <-> FoundAntlr4MavenPlugin p = true /\ Includes p <> [].
Proof.
  unfold retained. rewrite andb_true_iff, negb_true_iff, Nat.eqb_neq.
  destruct (Includes p); simpl; split; intros [? ?]; split; auto; congruence.
Qed.

Lemma walkFn_walk_error path e w :
  walkFn env path (Some e) w = (w, inr (Some e)).
Proof. reflexivity. Qed.

Lemma walkFn_not_pom path err w :
  HasSuffix path "/pom.xml" = false -> walkFn env path err w = (w, inr err).
Proof.
  intros Hs. unfold walkFn. rewrite Hs, andb_false_r. reflexivity.
Qed.

Lemma walkFn_ignored path w :
  onIgnoreList path = true -> walkFn env path None w = (w, inr None).
Proof.
  intros Hi. unfold walkFn. rewrite Hi.
  destruct (HasSuffix path "/pom.xml"); reflexivity.
Qed.

Lemma walkFn_parse_error path err w :
  HasSuffix path "/pom.xml" = true -> onIgnoreList path = false ->
  ParsePom env path = inl err ->
  walkFn env path None w =
    ({| projects := projects w;
        parsed := parsed w ++ [(path, inl err)];
        logged := logged w; Makefile := Makefile w |}, inr (Some err)).
Proof.
  intros Hs Hi Hp. unfold walkFn, bind, callParsePom.
  rewrite Hs, Hi, Hp. reflexivity.
Qed.

Lemma walkFn_no_plugin path p w :
  HasSuffix path "/pom.xml" = true -> onIgnoreList path = false ->
  ParsePom env path = inr p -> FoundAntlr4MavenPlugin p = false ->
  walkFn env path None w =
    ({| projects := projects w;
        parsed := parsed w ++ [(path, inr p)];
        logged := logged w; Makefile := Makefile w |}, inr None).
Proof.
  intros Hs Hi Hp Hf. unfold walkFn, bind, callParsePom.
  rewrite Hs, Hi, Hp, Hf. reflexivity.
Qed.

Lemma walkFn_no_includes path p w :
  HasSuffix path "/pom.xml" = true -> onIgnoreList path = false ->
  ParsePom env path = inr p -> FoundAntlr4MavenPlugin p = true ->
  Includes p = [] ->
  walkFn env path None w =
    ({| projects := projects w;
        parsed := parsed w ++ [(path, inr p)];
        logged := logged w ++ [Skipping path]; Makefile := Makefile w |},
     inr None).
Proof.
  intros Hs Hi Hp Hf Hn. unfold walkFn, bind, callParsePom.
  rewrite Hs, Hi, Hp, Hf, Hn. reflexivity.
Qed.

Lemma walkFn_retained path p w :
  HasSuffix path "/pom.xml" = true -> onIgnoreList path = false ->
  ParsePom env path = inr p -> retained p = true ->
  walkFn env path None w =
    ({| projects := <[PackageName p := p]> (projects w);
        parsed := parsed w ++ [(path, inr p)];
        logged := logged w; Makefile := Makefile w |}, inr None).
Proof.
  intros Hs Hi Hp Hr. unfold walkFn, bind, callParsePom.
  unfold retained in Hr. apply andb_true_iff in Hr as [Hf Hn].
  apply negb_true_iff in Hn.
  rewrite Hs, Hi, Hp, Hf, Hn. reflexivity.
Qed.

Lemma extend_nil (w : World Project) : extend w [] [] = w.
Proof. destruct w. unfold extend. simpl. by rewrite !app_nil_r. Qed.

Lemma extend_extend (w : World Project) c1 l1 c2 l2 :
  extend (extend w c1 l1) c2 l2 = extend w (c1 ++ c2) (l1 ++ l2).
Proof.
  unfold extend. simpl. unfold replay.
  by rewrite fold_left_app, !app_assoc.
Qed.

(** One visit, in full: whatever the world, the function never ends the run
    by itself, leaves [Makefile] alone, records at most one call of the
    parser, on a path that ends in [/pom.xml] and is not on the ignore list,
    and changes [projects] as that call says. *)
Lemma walkFn_effect path err :
  exists calls logs r,
    (forall w, walkFn env path err w = (extend w calls logs, inr r))
    /\ Forall (fun c => err = None /\ c.1 = path /\
                        HasSuffix path "/pom.xml" = true /\
                        onIgnoreList path = false /\
                        c.2 = ParsePom env path) calls.
Proof.
  destruct err as [e|].
  { exists [], [], (Some e). split; [|done]. intros w.
    by rewrite extend_nil. }
  destruct (HasSuffix path "/pom.xml") eqn:Hs.
  2:{ exists [], [], None. split; [|done]. intros w.
      by rewrite extend_nil, walkFn_not_pom. }
  destruct (onIgnoreList path) eqn:Hi.
  { exists [], [], None. split; [|done]. intros w.
    by rewrite extend_nil, walkFn_ignored. }
  assert (Hone :
    Forall (fun c => @None error = None /\ c.1 = path /\
                     true = true /\ false = false /\
                     c.2 = ParsePom env path) [(path, ParsePom env path)]).
  { constructor; [|constructor]. simpl. auto. }
  destruct (ParsePom env path) as [e|p] eqn:Hp.
  { exists [(path, inl e)], [], (Some e). split; [|exact Hone].
    intros w. rewrite (walkFn_parse_error _ _ _ Hs Hi Hp).
    unfold extend. simpl. by rewrite app_nil_r. }
  destruct (retained p) eqn:Hr.
  { exists [(path, inr p)], [], None. split; [|exact Hone].
    intros w. rewrite (walkFn_retained _ _ _ Hs Hi Hp Hr).
    unfold extend, replay, keep. simpl. by rewrite Hr, app_nil_r. }
  assert (Hk : forall m, replay [(path, inr p)] m = m).
  { intros m. unfold replay, keep. simpl. by rewrite Hr. }
  destruct (FoundAntlr4MavenPlugin p) eqn:Hf.
  - assert (Hn : Includes p = []).
    { unfold retained in Hr. rewrite Hf in Hr. simpl in Hr.
      apply negb_false_iff, Nat.eqb_eq in Hr.
      by destruct (Includes p). }
    exists [(path, inr p)], [Skipping path], None.
    split; [|exact Hone]. intros w.
    rewrite (walkFn_no_includes _ _ _ Hs Hi Hp Hf Hn).
    unfold extend. by rewrite Hk.
  - exists [(path, inr p)], [], None. split; [|exact Hone]. intros w.
    rewrite (walkFn_no_plugin _ _ _ Hs Hi Hp Hf).
    unfold extend. by rewrite Hk, app_nil_r.
Qed.

(** The walk over a list of visits in two parts. *)
Lemma Walk_app (fn : string -> option error -> M Project (option error))
      l1 l2 w :
  Walk fn (l1 ++ l2) w =
    match Walk fn l1 w with
    | (w', inr None) => Walk fn l2 w'
    | other => other
    end.
Proof.
  revert w. induction l1 as [|[path err] l1 IH]; intros w; [done|].
  simpl. unfold bind. destruct (fn path err w) as [w' [f|[e|]]]; auto.
Qed.

(** The whole walk: whatever the world, it returns to [main] (with an error
    or without), [Makefile] is as before, and [projects] is what the recorded
    parser calls make of it, each of them made on a visited path that ends in
    [/pom.xml] and is not on the ignore list. *)
Lemma Walk_effect visits :
  exists calls logs r,
    (forall w, Walk (walkFn env) visits w = (extend w calls logs, inr r)) /\
    Forall (fun c => (c.1, None) ∈ visits /\
                     HasSuffix c.1 "/pom.xml" = true /\
                     onIgnoreList c.1 = false /\
                     c.2 = ParsePom env c.1) calls.
Proof.
  induction visits as [|[path err] rest IH].
  { exists [], [], None. split; [|done]. intros w. by rewrite extend_nil. }
  destruct (walkFn_effect path err) as (calls & logs & r & Heq & Hcalls).
  assert (Hcalls' : Forall (fun c => (c.1, None) ∈ (path, err) :: rest /\
                     HasSuffix c.1 "/pom.xml" = true /\
                     onIgnoreList c.1 = false /\
                     c.2 = ParsePom env c.1) calls).
  { eapply Forall_impl; [exact Hcalls|]. intros [q x] (-> & Hq & ? & ? & ?).
    simpl in *. subst q. repeat split; auto. left. }
  destruct r as [e|].
  { exists calls, logs, (Some e). split; [|done]. intros w.
    simpl. unfold bind. by rewrite Heq. }
  destruct IH as (calls2 & logs2 & r2 & Heq2 & Hf).
  exists (calls ++ calls2), (logs ++ logs2), r2. split.
  - intros w. simpl. unfold bind. by rewrite Heq, Heq2, extend_extend.
  - apply Forall_app. split; [done|].
    eapply Forall_impl; [exact Hf|]. intros c (? & ? & ? & ?).
    repeat split; auto. by right.
Qed.

(** ** Replaying the parser calls *)

Lemma replay_app calls1 calls2 m :
  replay (calls1 ++ calls2) m = replay calls2 (replay calls1 m).
Proof. unfold replay. apply fold_left_app. Qed.


(** Every project of the map was kept: it has the plugin and an include. *)
Lemma replay_retained calls m :
  (forall k q, m !! k = Some q -> retained q = true) ->
  forall k q, replay calls m !! k = Some q ->
    retained q = true.
Proof.
  revert m. induction calls as [|[path r] calls IH]; intros m Hm; [done|].
  simpl. apply IH. intros k q. unfold keep. simpl.
  destruct r as [e|p]; [apply Hm|].
  destruct (retained p) eqn:Hr; [|apply Hm].
  rewrite lookup_insert. case_decide; [|apply Hm]. congruence.
Qed.



End WalkFacts.

(** ** The two loops over [projects] *)

Section LoopFacts.
Context {Project : Type} `{ProjectAPI Project}.

Lemma appendNames_fst (l : list (string * Project)) : appendNames l = l.*1.
Proof.
  unfold appendNames.
  assert (Hgen : forall acc,
    fold_left (fun grammars '(name, _) => grammars ++ [name]) l acc
    = acc ++ l.*1).
  { induction l as [|[name p] l IH]; intros acc; simpl.
    - by rewrite app_nil_r.
    - rewrite IH, <- app_assoc. done. }
  apply Hgen.
Qed.

Lemma appendGenerated_map name files :
  appendGenerated name files = map (fun file => name +:+ "/" +:+ file) files.
Proof.
  unfold appendGenerated.
  assert (Hgen : forall acc,
    fold_left (fun generated file => generated ++ [name +:+ "/" +:+ file])
              files acc
    = acc ++ map (fun file => name +:+ "/" +:+ file) files).
  { induction files as [|f files IH]; intros acc; simpl.
    - by rewrite app_nil_r.
    - rewrite IH, <- app_assoc. done. }
  apply Hgen.
Qed.

Lemma appendGenerated_length name files :
  length (appendGenerated name files) = length files.
Proof. rewrite appendGenerated_map. apply length_map. Qed.

(** When every project has two generated files, the loop runs to its end and
    [generatedFiles] has the prefixed names of each project it visited. *)
Lemma generatedLoop_ok (l : list (string * Project)) gf w :
  NoDup l.*1 ->
  Forall (fun np => 2 <= length (GeneratedFilenames np.2)) l ->
  exists gf',
    generatedLoop l gf w = (w, inr gf') /\
    (forall name p, (name, p) ∈ l ->
       gf' !! name = Some (appendGenerated name (GeneratedFilenames p))) /\
    (forall name, name ∉ l.*1 -> gf' !! name = gf !! name).
Proof.
  revert gf. induction l as [|[n p] l IH]; intros gf Hnd Hall.
  { exists gf. split; [done|]. split; [|done].
    intros ? ? Hin. by apply elem_of_nil in Hin. }
  simpl in Hnd. apply NoDup_cons in Hnd as [Hn Hnd].
  apply Forall_cons in Hall as [Hp Hall]. simpl in Hp.
  destruct (IH (<[n := appendGenerated n (GeneratedFilenames p)]> gf) Hnd Hall)
    as (gf' & Heq & Hin & Hout).
  exists gf'. simpl. rewrite appendGenerated_length.
  destruct (Nat.ltb_spec (length (GeneratedFilenames p)) 2) as [?|_]; [lia|].
  split; [exact Heq|]. split.
  - intros name q Hq. apply elem_of_cons in Hq as [Hq|Hq].
    + inversion Hq; subst. rewrite Hout by done. apply lookup_insert_eq.
    + by apply Hin.
  - intros name Hname. simpl in Hname. apply not_elem_of_cons in Hname as [? ?].
    rewrite Hout by done. by apply lookup_insert_ne.
Qed.

(** When some project has fewer, the loop ends the run at the first such
    project it visits, and names it. *)
Lemma generatedLoop_fatal (l : list (string * Project)) gf w :
  Exists (fun np => length (GeneratedFilenames np.2) < 2) l ->
  exists name p,
    (name, p) ∈ l /\ length (GeneratedFilenames p) < 2 /\
    generatedLoop l gf w =
      (w, inl (TooFewGenerated
                 (appendGenerated name (GeneratedFilenames p)) name)).
Proof.
  revert gf. induction l as [|[n p] l IH]; intros gf Hex.
  { by apply Exists_nil in Hex. }
  simpl. rewrite appendGenerated_length.
  destruct (Nat.ltb_spec (length (GeneratedFilenames p)) 2) as [Hlt|Hge].
  - exists n, p. split; [left|]. split; [done|]. reflexivity.
  - apply Exists_cons in Hex as [Hex|Hex]; [simpl in Hex; lia|].
    destruct (IH (<[n := appendGenerated n (GeneratedFilenames p)]> gf) Hex)
      as (name & q & Hin & Hlt & Heq).
    exists name, q. split; [by right|]. split; done.
Qed.

(** The loop never changes the world. *)
Lemma generatedLoop_world (l : list (string * Project)) gf w :
  (generatedLoop l gf w).1 = w.
Proof.
  revert gf. induction l as [|[n p] l IH]; intros gf; simpl; [done|].
  destruct (_ <? 2)%nat; [done|]. apply IH.
Qed.

(** A valid visiting order of a map: no key twice, and the entries of the
    map. *)
Lemma range_NoDup (m : gmap string Project) l :
  l ≡ₚ map_to_list m -> NoDup l.*1.
Proof. intros ->. apply NoDup_fst_map_to_list. Qed.

Lemma range_elem_of (m : gmap string Project) l name p :
  l ≡ₚ map_to_list m -> (name, p) ∈ l <-> m !! name = Some p.
Proof. intros ->. apply elem_of_map_to_list. Qed.

Lemma range_key (m : gmap string Project) l name :
  l ≡ₚ map_to_list m -> name ∈ l.*1 <-> is_Some (m !! name).
Proof.
  intros Hl. rewrite list_elem_of_fmap. split.
  - intros ([n p] & -> & Hin). apply (range_elem_of m) in Hin; [|done]. eauto.
  - intros [p Hp]. exists (name, p). split; [done|].
    by apply (range_elem_of m).
Qed.

(** The names, sorted, do not depend on the order the map was visited in. *)
Lemma sortStrings_perm l1 l2 : l1 ≡ₚ l2 -> sortStrings l1 = sortStrings l2.
Proof.
  intros Hp. unfold sortStrings.
  apply (Sorted_unique String.le).
  - apply Sorted_merge_sort; apply _.
  - apply Sorted_merge_sort; apply _.
  - by rewrite !merge_sort_Permutation.
Qed.

End LoopFacts.

(** ** Creating and writing the file *)

Section RenderFacts.
Context {Project : Type} `{ProjectAPI Project}.
Variable env : Env Project.

(** All writes succeed: every piece is appended, in order. *)
Lemma writePieces_all ps n (w : World Project) :
  (forall j, j < length ps -> writeError env (n + j) = None) ->
  writePieces env ps n w =
    ({| projects := projects w; parsed := parsed w; logged := logged w;
        Makefile := (fun text => fold_left String.append ps text)
                      <$> Makefile w |}, inr None).
Proof.
  revert n w. induction ps as [|s ps IH]; intros n w Hok.
  { destruct w as [? ? ? [?|]]; reflexivity. }
  assert (H0 : writeError env n = None).
  { rewrite <- (Nat.add_0_r n). apply Hok. simpl. lia. }
  simpl. rewrite H0. unfold bind, fileWrite. rewrite IH.
  - destruct w as [? ? ? [?|]]; reflexivity.
  - intros j Hj. replace (S n + j) with (n + S j) by lia.
    apply Hok. simpl. lia.
Qed.


Variable order : MapOrder Project.

(** [main], stage by stage. *)
Lemma main_unfold w :
  main env order w =
    match Walk (walkFn env) (walked env) w with
    | (w1, inl f) => (w1, inl f)
    | (w1, inr (Some e)) => (w1, inl (FailedToWalk e))
    | (w1, inr None) =>
        match generatedLoop (rangeGenerated order (projects w1)) ∅ w1 with
        | (w2, inl f) => (w2, inl f)
        | (w2, inr gf) =>
            render env
              {| Grammars :=
                   sortStrings (appendNames (rangeNames order (projects w1)));
                 Projects := projects w1;
                 GeneratedFiles := gf |} w2
        end
    end.
Proof.
  unfold main, aggregate, bind, getProjects, ret.
  destruct (Walk (walkFn env) (walked env) w) as [w1 [f|[e|]]];
    try reflexivity.
  all: destruct (generatedLoop _ ∅ w1) as [w2 [f|gf]]; reflexivity.
Qed.

Lemma aggregate_unfold w :
  aggregate env order w =
    match Walk (walkFn env) (walked env) w with
    | (w1, inl f) => (w1, inl f)
    | (w1, inr (Some e)) => (w1, inl (FailedToWalk e))
    | (w1, inr None) =>
        match generatedLoop (rangeGenerated order (projects w1)) ∅ w1 with
        | (w2, inl f) => (w2, inl f)
        | (w2, inr gf) =>
            (w2, inr
              {| Grammars :=
                   sortStrings (appendNames (rangeNames order (projects w1)));
                 Projects := projects w1;
                 GeneratedFiles := gf |})
        end
    end.
Proof.
  unfold aggregate, bind, getProjects, ret.
  destruct (Walk (walkFn env) (walked env) w) as [w1 [f|[e|]]];
    try reflexivity.
  all: destruct (generatedLoop _ ∅ w1) as [w2 [f|gf]]; reflexivity.
Qed.

(** The second half of [main] touches only [Makefile]. *)
Lemma render_frame data (w : World Project) :
  projects (render env data w).1 = projects w /\
  parsed (render env data w).1 = parsed w /\
  logged (render env data w).1 = logged w.
Proof.
  unfold render, bind, osCreate, Execute.
  destruct (createError env) as [e|]; [done|].
  set (w1 := {| projects := projects w |}).
  assert (Hw : forall ps n (w0 : World Project),
    projects (writePieces env ps n w0).1 = projects w0 /\
    parsed (writePieces env ps n w0).1 = parsed w0 /\
    logged (writePieces env ps n w0).1 = logged w0 /\
    exists r, (writePieces env ps n w0).2 = inr r).
  { induction ps as [|s ps IH]; intros n w0; simpl; [eauto|].
    destruct (writeError env n); simpl; [eauto|].
    unfold bind, fileWrite.
    apply (IH (S n) {| projects := projects w0; parsed := parsed w0;
                       logged := logged w0;
                       Makefile := (fun text => text +:+ s) <$> Makefile w0 |}). }
  destruct (Hw (pieces data) 0 w1) as (Hp & Hc & Hl & r & Hr).
  destruct (writePieces env (pieces data) 0 w1) as [w2 [f|[e|]]];
    simpl in *; done.
Qed.

(** After the walk, [projects], the parser calls and the log stay as they
    are to the end of the run. *)
Lemma main_frame :
  let w1 := (Walk (walkFn env) (walked env) start).1 in
  let w := (main env order start).1 in
  projects w = projects w1 /\ parsed w = parsed w1 /\ logged w = logged w1.
Proof.
  simpl. rewrite main_unfold.
  destruct (Walk (walkFn env) (walked env) start) as [w1 [f|[e|]]] eqn:Hw;
    try done.
  pose proof (generatedLoop_world (rangeGenerated order (projects w1)) ∅ w1)
    as Hg.
  destruct (generatedLoop _ ∅ w1) as [w2 [f|gf]]; simpl in Hg; subst w2;
    [done|].
  apply render_frame.
Qed.

End RenderFacts.

(** ** The run as a whole *)

Section RunFacts.
Context {Project : Type} `{ProjectAPI Project}.

Lemma Walk_ext (fn1 fn2 : string -> option error -> M Project (option error))
      visits w :
  (forall path err w0, (path, err) ∈ visits ->
     fn1 path err w0 = fn2 path err w0) ->
  Walk fn1 visits w = Walk fn2 visits w.
Proof.
  revert w. induction visits as [|[path err] rest IH]; intros w Hext; [done|].
  simpl. unfold bind. rewrite Hext by left.
  destruct (fn2 path err w) as [w' [f|[e|]]]; try done.
  apply IH. intros. apply Hext. by right.
Qed.

(** The function of the walk reads a file only through the parser, and only
    at a path that ends in [/pom.xml] and is not on the ignore list. *)
Lemma walkFn_parse_ext (env : Env Project) parse path err w :
  (onIgnoreList path = false -> parse path = ParsePom env path) ->
  walkFn (withParsePom env parse) path err w = walkFn env path err w.
Proof.
  intros Hagree. unfold walkFn.
  destruct ((if err is None then true else false) &&
            HasSuffix path "/pom.xml"); [|done].
  destruct (onIgnoreList path); [done|].
  unfold bind, callParsePom. simpl. by rewrite Hagree.
Qed.

Lemma writePieces_env (env1 env2 : Env Project) ps n w :
  (forall k, writeError env1 k = writeError env2 k) ->
  writePieces env1 ps n w = writePieces env2 ps n w.
Proof.
  intros Hw. revert n w. induction ps as [|s ps IH]; intros n w; [done|].
  simpl. rewrite Hw. destruct (writeError env2 n); [done|].
  unfold bind. destruct (fileWrite s w) as [w' [f|[]]]; [done|]. apply IH.
Qed.

Lemma render_env (env1 env2 : Env Project) data w :
  createError env1 = createError env2 ->
  (forall k, writeError env1 k = writeError env2 k) ->
  render env1 data w = render env2 data w.
Proof.
  intros Hc Hw. unfold render, bind, osCreate, Execute. rewrite Hc.
  destruct (createError env2); [done|].
  by rewrite (writePieces_env env1 env2).
Qed.

(** Two machines that differ only in what the walk does, and whose walks
    agree, run [main] alike. *)
Lemma main_env (env1 env2 : Env Project) order w :
  Walk (walkFn env1) (walked env1) w = Walk (walkFn env2) (walked env2) w ->
  createError env1 = createError env2 ->
  (forall k, writeError env1 k = writeError env2 k) ->
  main env1 order w = main env2 order w.
Proof.
  intros Hwalk Hc Hw. rewrite !main_unfold, Hwalk.
  destruct (Walk (walkFn env2) (walked env2) w) as [w1 [f|[e|]]]; try done.
  destruct (generatedLoop _ ∅ w1) as [w2 [f|gf]]; [done|].
  by apply render_env.
Qed.

(** What the run has parsed and kept, in terms of the walk alone. *)
Lemma main_walked (env : Env Project) order :
  exists calls logs,
    parsed (main env order start).1 = calls /\
    projects (main env order start).1 = replay calls ∅ /\
    logged (main env order start).1 = logs /\
    Forall (fun c => (c.1, None) ∈ walked env /\
                     HasSuffix c.1 "/pom.xml" = true /\
                     onIgnoreList c.1 = false /\
                     c.2 = ParsePom env c.1) calls.
Proof.
  destruct (main_frame env order) as (Hp & Hc & Hl).
  destruct (Walk_effect env (walked env)) as (calls & logs & r & Heq & Hall).
  exists calls, logs. rewrite Hp, Hc, Hl, Heq. simpl. done.
Qed.

Variable env : Env Project.
Variable order : MapOrder Project.

(** The parser is called on a descriptor: a path that ends in [/pom.xml]
    and is not on the ignore list. *)
Lemma walkFn_calls path w :
  HasSuffix path "/pom.xml" = true ->
  onIgnoreList path = false ->
  parsed (walkFn env path None w).1 = parsed w ++ [(path, ParsePom env path)].
Proof.
  intros Hs Hi. unfold walkFn, bind, callParsePom. rewrite Hs, Hi. simpl.
  destruct (ParsePom env path) as [e|p]; [done|].
  destruct (FoundAntlr4MavenPlugin p); [|done]. simpl.
  destruct (length (Includes p) =? 0)%nat; done.
Qed.

(** In a walk that returned no error, every descriptor visited without an
    error of the walk was handed to the parser. *)
Lemma walked_descriptor_is_parsed visits path w' :
  Walk (walkFn env) visits start = (w', inr None) ->
  (path, None) ∈ visits ->
  HasSuffix path "/pom.xml" = true ->
  onIgnoreList path = false ->
  (path, ParsePom env path) ∈ parsed w'.
Proof.
  intros Hwalk Hin Hs Hi.
  apply list_elem_of_split in Hin as (pre & post & ->).
  rewrite Walk_app in Hwalk.
  destruct (Walk_effect env pre) as (c1 & l1 & r1 & Hpre & _).
  rewrite Hpre in Hwalk. destruct r1 as [e|]; [done|].
  simpl in Hwalk. unfold bind in Hwalk.
  pose proof (walkFn_calls path (extend start c1 l1) Hs Hi) as Hcalls.
  destruct (walkFn env path None (extend start c1 l1)) as [w2 [f|[e|]]];
    try done.
  destruct (Walk_effect env post) as (c2 & l2 & r2 & Hpost & _).
  rewrite Hpost in Hwalk. injection Hwalk as <- _. simpl in *.
  rewrite Hcalls. set_solver.
Qed.


(** C10. An entry of the walk whose path does not end in [/pom.xml] is not
    considered: the function of the walk leaves the world as it is (no call
    of the parser, [projects] unchanged) and hands back the error of the
    walk itself; with no such error the walk goes on to the next entry; and
    in the whole run the parser is never called on that path. *)
Theorem other_entries_are_passed_over path :
  HasSuffix path "/pom.xml" = false ->
  (forall err w, walkFn env path err w = (w, inr err)) /\
  (forall rest w,
     Walk (walkFn env) ((path, None) :: rest) w = Walk (walkFn env) rest w) /\
  (forall r, (path, r) ∉ parsed (main env order start).1).
Proof.
  intros Hs. split; [|split].
  - intros err w. by apply walkFn_not_pom.
  - intros rest w. simpl. unfold bind. by rewrite walkFn_not_pom.
  - intros r Hin.
    destruct (main_walked env order) as (calls & logs & Hc & _ & _ & Hall).
    rewrite Hc in Hin. rewrite Forall_forall in Hall.
    destruct (Hall _ Hin) as (_ & Hs' & _). simpl in Hs'. congruence.
Qed.

(** Where the projects of the map come from. *)
Lemma replay_provenance calls (m : gmap string Project) k q :
  replay calls m !! k = Some q ->
  m !! k = Some q \/ exists path, (path, inr q) ∈ calls.
Proof.
  revert m. induction calls as [|[path r] calls IH]; intros m Hk; [by left|].
  simpl in Hk. apply IH in Hk as [Hk|[path' Hin]].
  - unfold keep in Hk. simpl in Hk. destruct r as [e|p]; [by left|].
    destruct (retained p); [|by left].
    rewrite lookup_insert in Hk. case_decide; [|by left].
    inversion Hk; subst. right. exists path. left.
  - right. exists path'. by right.
Qed.

Lemma Walk_skip_ignored path pre post w :
  onIgnoreList path = true ->
  Walk (walkFn env) (pre ++ (path, None) :: post) w
  = Walk (walkFn env) (pre ++ post) w.
Proof.
  intros Hi. rewrite !Walk_app.
  destruct (Walk (walkFn env) pre w) as [w1 [f|[e|]]]; try done.
  simpl. unfold bind. by rewrite walkFn_ignored.
Qed.

(** C6. A path on the ignore list: the parser is never called on it in the
    run; every project of the aggregate mapping was parsed from a path that
    is not on the list; the run is the same, log, file and all, as the run
    on the tree without that entry; and it is the same whatever the parser
    would return for that path. *)
Theorem ignored_descriptor_never_parsed path :
  onIgnoreList path = true ->
  (forall r, (path, r) ∉ parsed (main env order start).1) /\
  (forall name p,
     projects (main env order start).1 !! name = Some p ->
     exists path', onIgnoreList path' = false /\
                   (path', inr p) ∈ parsed (main env order start).1) /\
  (forall pre post,
     walked env = pre ++ (path, None) :: post ->
     main env order start = main (withWalked env (pre ++ post)) order start) /\
  (forall parse,
     (forall q, q <> path -> parse q = ParsePom env q) ->
     main (withParsePom env parse) order start = main env order start).
Proof.
  intros Hi.
  destruct (main_walked env order) as (calls & logs & Hc & Hp & _ & Hall).
  rewrite Forall_forall in Hall. split; [|split; [|split]].
  - intros r Hin. rewrite Hc in Hin.
    destruct (Hall _ Hin) as (_ & _ & Hi' & _). simpl in Hi'. congruence.
  - intros name p Hlook. rewrite Hp in Hlook. rewrite Hc.
    apply replay_provenance in Hlook as [Hlook|[path' Hin]].
    { by rewrite lookup_empty in Hlook. }
    exists path'. split; [|done]. destruct (Hall _ Hin) as (_ & _ & ? & _).
    done.
  - intros pre post Hw. apply main_env; [|done|done]. simpl.
    rewrite Hw, (Walk_skip_ignored path) by done.
    apply Walk_ext. reflexivity.
  - intros parse Hagree. apply main_env; [|done|done]. simpl.
    apply Walk_ext. intros q err w0 _. apply walkFn_parse_ext.
    intros Hq. apply Hagree. intros ->. congruence.
Qed.

(** C7. The first parse error of the walk: the entries before it were walked
    without error, then the parser fails on a descriptor. The run ends there
    with the fatal error of the walk: the world is the one the earlier
    entries left, with this one call of the parser added and nothing of the
    entries after it, and [Makefile] was not created. *)
Theorem first_parse_error_aborts pre path post err w :
  walked env = pre ++ (path, None) :: post ->
  Walk (walkFn env) pre start = (w, inr None) ->
  HasSuffix path "/pom.xml" = true ->
  onIgnoreList path = false ->
  ParsePom env path = inl err ->
  main env order start =
    ({| projects := projects w;
        parsed := parsed w ++ [(path, inl err)];
        logged := logged w;
        Makefile := None |}, inl (FailedToWalk err)).
Proof.
  intros Hw Hpre Hs Hi Hp.
  assert (Hmk : Makefile w = None).
  { destruct (Walk_effect env pre) as (calls & logs & r & Heq & _).
    rewrite Heq in Hpre. inversion Hpre. done. }
  rewrite main_unfold, Hw, Walk_app, Hpre. simpl. unfold bind.
  rewrite (walkFn_parse_error env path err w Hs Hi Hp). simpl.
  by rewrite Hmk.
Qed.

(** C4. A descriptor that derives a project name already in [projects]
    (put there by an earlier descriptor): the function of the walk stores
    the later project under that name in place of the earlier one, returns
    no error and logs nothing, every other name keeps its project, and the
    walk goes on with the next entry. *)
Theorem same_name_replaces_silently path p earlier w :
  HasSuffix path "/pom.xml" = true ->
  onIgnoreList path = false ->
  ParsePom env path = inr p ->
  FoundAntlr4MavenPlugin p = true ->
  Includes p <> [] ->
  projects w !! PackageName p = Some earlier ->
  exists w',
    walkFn env path None w = (w', inr None) /\
    projects w' !! PackageName p = Some p /\
    (forall k, k <> PackageName p -> projects w' !! k = projects w !! k) /\
    logged w' = logged w /\
    Makefile w' = Makefile w /\
    (forall rest,
       Walk (walkFn env) ((path, None) :: rest) w = Walk (walkFn env) rest w') /\
    (forall pre post,
       walked env = pre ++ (path, None) :: post ->
       Walk (walkFn env) pre start = (w, inr None) ->
       Walk (walkFn env) (walked env) start = Walk (walkFn env) post w').
Proof.
  intros Hs Hi Hp Hf Hn _.
  assert (Hr : retained p = true) by (by apply retained_true).
  eexists. split; [by apply walkFn_retained|]. simpl.
  split; [apply lookup_insert_eq|].
  split; [intros k Hk; by apply lookup_insert_ne|].
  split; [done|]. split; [done|]. split.
  - intros rest. unfold bind.
    by rewrite (walkFn_retained env path p w Hs Hi Hp Hr).
  - intros pre post Hw Hpre. rewrite Hw, Walk_app, Hpre. simpl. unfold bind.
    by rewrite (walkFn_retained env path p w Hs Hi Hp Hr).
Qed.

(** ** What the rest of the run reads of the world *)

(** The loop over the generated files reads nothing of the world. *)
Lemma generatedLoop_uniform (l : list (string * Project)) gf :
  exists v, forall w : World Project, generatedLoop l gf w = (w, v).
Proof.
  revert gf. induction l as [|[n p] l IH]; intros gf; simpl.
  - by exists (inr gf).
  - destruct (_ <? 2)%nat; [|apply IH]. by eexists.
Qed.

(** Writing the pieces reads only [Makefile], and only extends it. *)
Lemma writePieces_uniform (e0 : Env Project) ps n :
  exists (f : string -> string) r, forall w : World Project,
    writePieces e0 ps n w =
      ({| projects := projects w; parsed := parsed w; logged := logged w;
          Makefile := f <$> Makefile w |}, inr r).
Proof.
  revert n. induction ps as [|s ps IH]; intros n.
  { exists id, None. intros [? ? ? [?|]]; reflexivity. }
  simpl. destruct (writeError e0 n) as [e|].
  { exists id, (Some e). intros [? ? ? [?|]]; reflexivity. }
  destruct (IH (S n)) as (f & r & Heq).
  exists (fun text => f (text +:+ s)), r. intros w.
  unfold bind, fileWrite. rewrite Heq. simpl.
  by destruct (Makefile w).
Qed.

(** The second half of [main] replaces [Makefile] if it can create it, and
    reads nothing else. *)
Lemma render_uniform (e0 : Env Project) data :
  exists (mk : option string -> option string) r, forall w : World Project,
    render e0 data w =
      ({| projects := projects w; parsed := parsed w; logged := logged w;
          Makefile := mk (Makefile w) |}, r).
Proof.
  unfold render, bind, osCreate, Execute.
  destruct (createError e0) as [e|].
  { exists id, (inl (FailedToCreate e)). by intros []. }
  destruct (writePieces_uniform e0 (pieces data) 0) as (f & r & Heq).
  exists (fun _ => Some (f "")),
         (match r with Some e => inl (FailedToGenerate e) | None => inr tt end).
  intros w. rewrite Heq. simpl. by destruct r.
Qed.

(** Two machines whose walks end alike and keep the same projects produce
    the same mapping, the same file and the same end of the run. *)
Lemma main_same_output (env1 env2 : Env Project) c1 l1 c2 l2 r :
  (forall w, Walk (walkFn env1) (walked env1) w = (extend w c1 l1, inr r)) ->
  (forall w, Walk (walkFn env2) (walked env2) w = (extend w c2 l2, inr r)) ->
  replay c1 ∅ = replay c2 ∅ ->
  createError env1 = createError env2 ->
  (forall k, writeError env1 k = writeError env2 k) ->
  projects (main env1 order start).1 = projects (main env2 order start).1 /\
  Makefile (main env1 order start).1 = Makefile (main env2 order start).1 /\
  (main env1 order start).2 = (main env2 order start).2.
Proof.
  intros H1 H2 Hrep Hc Hw. rewrite !main_unfold, H1, H2.
  destruct r as [e|]; [simpl; done|].
  cbn [extend projects start]. rewrite Hrep.
  destruct (generatedLoop_uniform (rangeGenerated order (replay c2 ∅)) ∅)
    as (v & Hv).
  rewrite !Hv. destruct v as [f|gf]; [simpl; done|].
  rewrite (render_env env1 env2) by done.
  match goal with |- context [render env2 ?d _] =>
    destruct (render_uniform env2 d) as (mk & r & Hr) end.
  rewrite !Hr. simpl. done.
Qed.

(** A call that keeps nothing can be left out of the replay. *)
Lemma replay_skip c1 c2 path p (m : gmap string Project) :
  retained p = false ->
  replay (c1 ++ (path, inr p) :: c2) m = replay (c1 ++ c2) m.
Proof.
  intros Hnot. rewrite !replay_app.
  assert (Hk : keep (replay c1 m) (path, inr p) = replay c1 m).
  { unfold keep. simpl. by rewrite Hnot. }
  change (replay ((path, inr p) :: c2) (replay c1 m))
    with (replay c2 (keep (replay c1 m) (path, inr p))).
  by rewrite Hk.
Qed.

(** C8, as the code has it. A successfully parsed descriptor with the
    code-generation plugin and an empty includes list: the function of the
    walk logs that it skips the path, returns no error and leaves [projects]
    as it is, so the walk goes on; no project of the aggregate mapping has
    an empty includes list; and the mapping, the file and the end of the run
    are those of the run on the tree without that entry. *)
Theorem empty_includes_logged_and_skipped path p :
  HasSuffix path "/pom.xml" = true ->
  onIgnoreList path = false ->
  ParsePom env path = inr p ->
  FoundAntlr4MavenPlugin p = true ->
  Includes p = [] ->
  (forall w rest,
     let w' := {| projects := projects w;
                  parsed := parsed w ++ [(path, inr p)];
                  logged := logged w ++ [Skipping path];
                  Makefile := Makefile w |} in
     walkFn env path None w = (w', inr None) /\
     Walk (walkFn env) ((path, None) :: rest) w = Walk (walkFn env) rest w') /\
  (forall name q,
     projects (main env order start).1 !! name = Some q -> Includes q <> []) /\
  (forall pre post,
     walked env = pre ++ (path, None) :: post ->
     projects (main env order start).1
       = projects (main (withWalked env (pre ++ post)) order start).1 /\
     Makefile (main env order start).1
       = Makefile (main (withWalked env (pre ++ post)) order start).1 /\
     (main env order start).2
       = (main (withWalked env (pre ++ post)) order start).2).
Proof.
  intros Hs Hi Hp Hf Hn.
  pose proof (walkFn_no_includes env path p) as Hstep.
  split; [|split].
  - intros w rest. simpl. unfold bind. rewrite (Hstep w) by done. done.
  - intros name q Hq.
    destruct (main_walked env order) as (calls & logs & _ & Hpr & _ & _).
    rewrite Hpr in Hq. eapply replay_retained in Hq.
    + by apply retained_true in Hq as [_ ?].
    + intros k q' Hempty. by rewrite lookup_empty in Hempty.
  - intros pre post Hw.
    destruct (Walk_effect env pre) as (c1 & l1 & r1 & Hpre & _).
    destruct (Walk_effect env post) as (c2 & l2 & r2 & Hpost & _).
    assert (Hnot : retained p = false).
    { unfold retained. by rewrite Hf, Hn. }
    destruct r1 as [e|].
    + apply (main_same_output env (withWalked env (pre ++ post))
               c1 l1 c1 l1 (Some e)); try done.
      * intros w. by rewrite Hw, Walk_app, Hpre.
      * intros w. simpl. rewrite Walk_app.
        erewrite (Walk_ext _ (walkFn env) pre) by reflexivity.
        by rewrite Hpre.
    + apply (main_same_output env (withWalked env (pre ++ post))
               (c1 ++ (path, inr p) :: c2) (l1 ++ Skipping path :: l2)
               (c1 ++ c2) (l1 ++ l2) r2); try done.
      * intros w. rewrite Hw, Walk_app, Hpre. simpl. unfold bind.
        rewrite (Hstep _ Hs Hi Hp Hf Hn), Hpost.
        unfold extend. cbn [projects parsed logged Makefile].
        rewrite (replay_skip _ _ _ _ _ Hnot), replay_app.
        by rewrite <- !app_assoc.
      * intros w. simpl. rewrite Walk_app.
        erewrite (Walk_ext _ (walkFn env) pre) by reflexivity.
        rewrite Hpre.
        erewrite (Walk_ext _ (walkFn env) post) by reflexivity.
        by rewrite Hpost, extend_extend.
      * by apply replay_skip.
Qed.

(** ** The generated files of the retained projects *)

(** Over any visiting order of [m], and when every project has two
    generated files, the loop fills [generatedFiles] with exactly one list
    for every name of [m]. *)
Lemma generatedLoop_range (m : gmap string Project) l w :
  l ≡ₚ map_to_list m ->
  Forall (fun np => 2 <= length (GeneratedFilenames np.2)) l ->
  exists gf,
    generatedLoop l ∅ w = (w, inr gf) /\
    forall name,
      gf !! name
      = (fun p => appendGenerated name (GeneratedFilenames p)) <$> m !! name.
Proof.
  intros Hl Hall.
  destruct (generatedLoop_ok l ∅ w (range_NoDup m l Hl) Hall)
    as (gf & Heq & Hin & Hout).
  exists gf. split; [done|]. intros name.
  destruct (m !! name) as [p|] eqn:Hm; simpl.
  - apply Hin. by apply (range_elem_of m).
  - rewrite Hout; [apply lookup_empty|].
    rewrite (range_key m) by done. rewrite Hm. by intros [? ?].
Qed.

Lemma range_Forall (m : gmap string Project) l (P : string * Project -> Prop) :
  l ≡ₚ map_to_list m ->
  Forall P l <-> forall name p, m !! name = Some p -> P (name, p).
Proof.
  intros Hl. rewrite Forall_forall. split.
  - intros Hall name p Hm. apply Hall. by apply (range_elem_of m).
  - intros Hall [name p] Hin. apply Hall. by apply (range_elem_of m l).
Qed.

Lemma some_too_few (l : list (string * Project)) :
  ~ Forall (fun np => 2 <= length (GeneratedFilenames np.2)) l ->
  Exists (fun np => length (GeneratedFilenames np.2) < 2) l.
Proof.
  intros Hnot. apply not_Forall_Exists in Hnot; [|intros ?; apply _].
  eapply Exists_impl; [exact Hnot|]. simpl. intros np Hnp. lia.
Qed.

(** An aggregation that reached its end: the walk returned no error, the
    template gets the projects of the walk, each of them has two generated
    files, and [generatedFiles] has one list for every project name. *)
Lemma aggregate_finished w data :
  MapOrder_ok order ->
  aggregate env order start = (w, inr data) ->
  Walk (walkFn env) (walked env) start = (w, inr None) /\
  Projects data = projects w /\
  (forall name p,
     projects w !! name = Some p -> 2 <= length (GeneratedFilenames p)) /\
  (forall name,
     GeneratedFiles data !! name
     = (fun p => appendGenerated name (GeneratedFilenames p))
         <$> projects w !! name).
Proof.
  intros Hok Hagg. rewrite aggregate_unfold in Hagg.
  destruct (Walk (walkFn env) (walked env) start) as [w1 [f|[e|]]];
    try done.
  destruct (Hok (projects w1)) as [_ Hl].
  destruct (decide (Forall (fun np : string * Project =>
                      2 <= length (GeneratedFilenames np.2))
                   (rangeGenerated order (projects w1)))) as [Hall|Hnot].
  - destruct (generatedLoop_range (projects w1) _ w1 Hl Hall)
      as (gf & Heq & Hgf).
    rewrite Heq in Hagg. injection Hagg as <- <-. simpl.
    split; [done|]. split; [done|]. split; [|done].
    intros name p Hp.
    exact (proj1 (range_Forall (projects w1) _ _ Hl) Hall name p Hp).
  - apply some_too_few in Hnot.
    destruct (generatedLoop_fatal _ ∅ w1 Hnot) as (name & p & _ & _ & Heq).
    by rewrite Heq in Hagg.
Qed.

(** C9. After an aggregation that reached its end, the generated-files
    mapping has the keys of the project mapping, and for every project name
    its list is the list of the project's generated file names, each with
    the name and a slash in front, in the same order. *)
Theorem generated_files_follow_projects w data :
  MapOrder_ok order ->
  aggregate env order start = (w, inr data) ->
  dom (GeneratedFiles data) = dom (Projects data) /\
  forall name p,
    Projects data !! name = Some p ->
    GeneratedFiles data !! name
    = Some (map (fun file => name +:+ "/" +:+ file) (GeneratedFilenames p)).
Proof.
  intros Hok Hagg.
  destruct (aggregate_finished w data Hok Hagg) as (_ & Hpr & _ & Hgf).
  rewrite Hpr. split.
  - apply set_eq. intros name. rewrite !elem_of_dom, Hgf.
    by rewrite fmap_is_Some.
  - intros name p Hp. by rewrite Hgf, Hp, <- appendGenerated_map.
Qed.

(** C2. When the aggregation reaches its end, every retained project has at
    least two generated files, in the project and in the generated-files
    mapping. When, after a walk without error, some retained project has
    fewer than two, the run ends with the fatal error that names such a
    project and shows its list; the world is the one the walk left, and
    [Makefile] was neither created nor written. *)
Theorem fewer_than_two_generated_is_fatal w :
  MapOrder_ok order ->
  Walk (walkFn env) (walked env) start = (w, inr None) ->
  (forall w' data,
     aggregate env order start = (w', inr data) ->
     forall name p,
       Projects data !! name = Some p ->
       2 <= length (GeneratedFilenames p) /\
       exists generated,
         GeneratedFiles data !! name = Some generated /\
         2 <= length generated) /\
  ((exists name p,
      projects w !! name = Some p /\ length (GeneratedFilenames p) < 2) ->
   exists name p,
     projects w !! name = Some p /\
     length (GeneratedFilenames p) < 2 /\
     length (appendGenerated name (GeneratedFilenames p)) < 2 /\
     main env order start =
       (w, inl (TooFewGenerated
                  (appendGenerated name (GeneratedFilenames p)) name)) /\
     Makefile w = None).
Proof.
  intros Hok Hwalk.
  destruct (Hok (projects w)) as [_ Hl].
  assert (Hmk : Makefile w = None).
  { destruct (Walk_effect env (walked env)) as (calls & logs & r & Heq & _).
    rewrite Heq in Hwalk. inversion Hwalk. done. }
  split.
  - intros w' data Hagg name p Hp.
    destruct (aggregate_finished w' data Hok Hagg) as (_ & Hpr & Hlen & Hgf).
    rewrite Hpr in Hp. split; [by apply (Hlen name)|].
    eexists. rewrite Hgf, Hp. split; [done|].
    rewrite appendGenerated_length. by apply (Hlen name).
  - intros (name & p & Hp & Hlt).
    assert (Hex : Exists (fun np : string * Project =>
                            length (GeneratedFilenames np.2) < 2)
                         (rangeGenerated order (projects w))).
    { apply Exists_exists. exists (name, p). split; [|done].
      by apply (range_elem_of (projects w)). }
    destruct (generatedLoop_fatal _ ∅ w Hex) as (n & q & Hin & Hq & Heq).
    exists n, q. split; [by apply (range_elem_of (projects w)) in Hin|].
    split; [done|]. split; [by rewrite appendGenerated_length|].
    split; [|done]. by rewrite main_unfold, Hwalk, Heq.
Qed.

(** ** The order of the maps does not show *)

Lemma main_aggregate_render (o : MapOrder Project) w :
  main env o w =
    match aggregate env o w with
    | (w', inl f) => (w', inl f)
    | (w', inr data) => render env data w'
    end.
Proof. reflexivity. Qed.

(** Two valid visiting orders give the same aggregation: the same world,
    and either the same template data or a fatal error in both. *)
Lemma aggregate_order_irrelevant (o1 o2 : MapOrder Project) :
  MapOrder_ok o1 -> MapOrder_ok o2 ->
  (aggregate env o1 start).1 = (aggregate env o2 start).1 /\
  match (aggregate env o1 start).2 with
  | inr data => (aggregate env o2 start).2 = inr data
  | inl _ => exists f, (aggregate env o2 start).2 = inl f
  end.
Proof.
  intros Hok1 Hok2. rewrite !aggregate_unfold.
  destruct (Walk (walkFn env) (walked env) start) as [w1 [f|[e|]]];
    simpl; eauto.
  destruct (Hok1 (projects w1)) as [Hn1 Hg1].
  destruct (Hok2 (projects w1)) as [Hn2 Hg2].
  destruct (decide (Forall (fun np : string * Project =>
                      2 <= length (GeneratedFilenames np.2))
                   (rangeGenerated o1 (projects w1)))) as [Hall|Hnot].
  - assert (Hall2 : Forall (fun np : string * Project =>
                      2 <= length (GeneratedFilenames np.2))
                   (rangeGenerated o2 (projects w1))).
    { apply (proj2 (range_Forall (projects w1) _ _ Hg2)).
      exact (proj1 (range_Forall (projects w1) _ _ Hg1) Hall). }
    destruct (generatedLoop_range (projects w1) _ w1 Hg1 Hall)
      as (gf1 & Heq1 & Hgf1).
    destruct (generatedLoop_range (projects w1) _ w1 Hg2 Hall2)
      as (gf2 & Heq2 & Hgf2).
    rewrite Heq1, Heq2. simpl. split; [done|].
    assert (gf1 = gf2) as ->.
    { apply map_eq. intros name. by rewrite Hgf1, Hgf2. }
    rewrite !appendNames_fst.
    rewrite (sortStrings_perm (rangeNames o1 (projects w1)).*1
                              (rangeNames o2 (projects w1)).*1); [done|].
    by rewrite Hn1, Hn2.
  - apply some_too_few in Hnot.
    assert (Hnot2 : Exists (fun np : string * Project =>
                      length (GeneratedFilenames np.2) < 2)
                   (rangeGenerated o2 (projects w1))).
    { apply Exists_exists in Hnot as ([n p] & Hin & Hlt).
      apply Exists_exists. exists (n, p). split; [|done].
      apply (range_elem_of (projects w1)); [done|].
      by apply (range_elem_of (projects w1)) in Hin. }
    destruct (generatedLoop_fatal _ ∅ w1 Hnot) as (? & ? & _ & _ & Heq1).
    destruct (generatedLoop_fatal _ ∅ w1 Hnot2) as (? & ? & _ & _ & Heq2).
    rewrite Heq1, Heq2. simpl. eauto.
Qed.

(** C3. Two runs on the same machine (the same tree, file contents and file
    system answers) leave the same text in [Makefile], whatever the order in
    which each of them visits the keys of its maps; in particular the names
    given to the template are the keys of the project mapping in increasing
    byte-wise order, and the whole template data are the same in both
    runs. *)
Theorem output_is_deterministic order1 order2 :
  MapOrder_ok order1 -> MapOrder_ok order2 ->
  Makefile (main env order1 start).1 = Makefile (main env order2 start).1 /\
  (forall w data,
     aggregate env order1 start = (w, inr data) ->
     Sorted String.le (Grammars data) /\
     Grammars data ≡ₚ (map_to_list (Projects data)).*1 /\
     aggregate env order2 start = (w, inr data)).
Proof.
  intros Hok1 Hok2.
  destruct (aggregate_order_irrelevant order1 order2 Hok1 Hok2) as [Hw Hv].
  split.
  - rewrite !main_aggregate_render.
    destruct (aggregate env order1 start) as [w1 [f|data]];
      destruct (aggregate env order2 start) as [w2 v2];
      simpl in Hw, Hv; subst w2.
    + destruct Hv as [f' ->]. done.
    + by rewrite Hv.
  - intros w data Hagg. rewrite Hagg in Hw, Hv. simpl in Hw, Hv.
    split; [|split].
    + rewrite aggregate_unfold in Hagg.
      destruct (Walk (walkFn env) (walked env) start) as [w1 [f|[e|]]];
        try done.
      destruct (generatedLoop _ ∅ w1) as [w2 [f|gf]]; [done|].
      injection Hagg as _ <-. simpl. apply Sorted_merge_sort; apply _.
    + rewrite aggregate_unfold in Hagg.
      destruct (Walk (walkFn env) (walked env) start) as [w1 [f|[e|]]];
        try done.
      destruct (generatedLoop _ ∅ w1) as [w2 [f|gf]]; [done|].
      injection Hagg as _ <-. simpl. unfold sortStrings.
      rewrite merge_sort_Permutation, appendNames_fst.
      destruct (Hok1 (projects w1)) as [-> _]. done.
    + destruct (aggregate env order2 start) as [w2 v2]. simpl in *.
      by subst.
Qed.


End RunFacts.

(** ** Concrete runs *)

(** The example of the spec: one project, its test target and its three
    rules. *)
Example example_run_ends_well :
  (main envExample orderListed start).2 = inr tt.
Proof. vm_compute. reflexivity. Qed.

Example example_names : Grammars (aggregated envExample) = ["proj"].
Proof. vm_compute. reflexivity. Qed.

Example example_test_targets :
  Concat (testTargets (aggregated envExample)) = "proj/proj_test.go ".
Proof. vm_compute. reflexivity. Qed.

Example example_rules :
  Concat (projectRules (aggregated envExample))
  = nl +:+ nl +:+ "proj: proj/proj_test.go" +:+ nl
    +:+ "proj/A_lexer.go proj/A_parser.go: A.g4 ALexer.g4" +:+ nl
    +:+ "proj/proj_test.go: proj/A_lexer.go proj/A_parser.go".
Proof. vm_compute. reflexivity. Qed.

Example example_file :
  Makefile (main envExample orderListed start).1
  = Some (rendered (aggregated envExample)).
Proof. vm_compute. reflexivity. Qed.

Lemma orderListed_ok : MapOrder_ok orderListed.
Proof. intros m. split; reflexivity. Qed.

Lemma orderMixed_ok : MapOrder_ok orderMixed.
Proof. intros m. split; apply reverse_Permutation. Qed.


(** A project with one generated file ends the run before [Makefile] is
    touched. *)
Lemma fewer_than_two_generated_is_fatal_witness :
  exists name p,
    projects (walkedWorld envLexerOnly visitsLexerOnly) !! name = Some p /\
    length (GeneratedFilenames p) < 2 /\
    length (appendGenerated name (GeneratedFilenames p)) < 2 /\
    main envLexerOnly orderListed start =
      (walkedWorld envLexerOnly visitsLexerOnly,
       inl (TooFewGenerated
              (appendGenerated name (GeneratedFilenames p)) name)) /\
    Makefile (walkedWorld envLexerOnly visitsLexerOnly) = None.
Proof.
  apply (fewer_than_two_generated_is_fatal envLexerOnly orderListed
           (walkedWorld envLexerOnly visitsLexerOnly)).
  - intros m. split; reflexivity.
  - vm_compute. reflexivity.
  - exists "lex", lexerOnly. split; [vm_compute; reflexivity|].
    simpl. lia.
Defined.

(** Two visiting orders, one file. *)
Lemma output_is_deterministic_witness :
  Makefile (main envTwo orderListed start).1
  = Makefile (main envTwo orderMixed start).1.
Proof.
  apply (output_is_deterministic envTwo orderListed orderMixed).
  - intros m. split; reflexivity.
  - intros m. split; apply reverse_Permutation.
Defined.

(** The second descriptor named [proj] takes the place of the first. *)
Lemma same_name_replaces_silently_witness :
  exists w',
    walkFn envCollision "grammars-v4/zz/pom.xml" None
           (walkedWorld envCollision [("grammars-v4/proj/pom.xml", None)])
    = (w', inr None) /\
    projects w' !! "proj" = Some projAgain /\
    logged w'
    = logged (walkedWorld envCollision [("grammars-v4/proj/pom.xml", None)]).
Proof.
  destruct (same_name_replaces_silently envCollision
              "grammars-v4/zz/pom.xml" projAgain proj
              (walkedWorld envCollision [("grammars-v4/proj/pom.xml", None)]))
    as (w' & Hstep & Hnew & _ & Hlog & _).
  - reflexivity.
  - reflexivity.
  - reflexivity.
  - reflexivity.
  - discriminate.
  - vm_compute. reflexivity.
  - exists w'. split; [exact Hstep|]. split; [exact Hnew|exact Hlog].
Defined.



(** The descriptor of the ignored project [objc] is never parsed, and the
    run is the run on the tree without it. *)
Lemma ignored_descriptor_never_parsed_witness :
  onIgnoreList "grammars-v4/objc/pom.xml" = true /\
  (("grammars-v4/objc/pom.xml", inr abnf)
     ∉ parsed (main envIgnored orderListed start).1) /\
  main envIgnored orderListed start
  = main (withWalked envIgnored
            [ ("grammars-v4", None);
              ("grammars-v4/abnf/pom.xml", None);
              ("grammars-v4/proj/pom.xml", None) ])
         orderListed start.
Proof.
  destruct (ignored_descriptor_never_parsed envIgnored orderListed
              "grammars-v4/objc/pom.xml")
    as (Hnever & _ & Hremove & _).
  - reflexivity.
  - split; [reflexivity|]. split; [apply Hnever|].
    apply (Hremove [("grammars-v4", None); ("grammars-v4/abnf/pom.xml", None)]
                   [("grammars-v4/proj/pom.xml", None)]).
    reflexivity.
Defined.

(** The malformed descriptor ends the run; [proj], after it, is not
    parsed. *)
Lemma first_parse_error_aborts_witness :
  main envBroken orderListed start =
    ({| projects :=
          projects (walkedWorld envBroken
                      [("grammars-v4", None);
                       ("grammars-v4/abnf/pom.xml", None)]);
        parsed :=
          parsed (walkedWorld envBroken
                    [("grammars-v4", None);
                     ("grammars-v4/abnf/pom.xml", None)])
          ++ [("grammars-v4/broken/pom.xml", inl "XML syntax error")];
        logged :=
          logged (walkedWorld envBroken
                    [("grammars-v4", None);
                     ("grammars-v4/abnf/pom.xml", None)]);
        Makefile := None |}, inl (FailedToWalk "XML syntax error")).
Proof.
  apply (first_parse_error_aborts envBroken orderListed
           [("grammars-v4", None); ("grammars-v4/abnf/pom.xml", None)]
           "grammars-v4/broken/pom.xml"
           [("grammars-v4/proj/pom.xml", None)]).
  - reflexivity.
  - vm_compute. reflexivity.
  - reflexivity.
  - reflexivity.
  - reflexivity.
Defined.

(** The descriptor with the plugin and no include is logged and skipped. *)
Lemma empty_includes_logged_and_skipped_witness :
  walkFn envEmpty "grammars-v4/empty/pom.xml" None start
  = ({| projects := ∅;
        parsed := [("grammars-v4/empty/pom.xml", inr noIncludes)];
        logged := [Skipping "grammars-v4/empty/pom.xml"];
        Makefile := None |}, inr None) /\
  Makefile (main envEmpty orderListed start).1
  = Makefile (main (withWalked envEmpty
                      [ ("grammars-v4/abnf/pom.xml", None);
                        ("grammars-v4/proj/pom.xml", None) ])
                   orderListed start).1.
Proof.
  destruct (empty_includes_logged_and_skipped envEmpty orderListed
              "grammars-v4/empty/pom.xml" noIncludes)
    as (Hstep & _ & Hremove).
  - reflexivity.
  - reflexivity.
  - reflexivity.
  - reflexivity.
  - reflexivity.
  - split; [apply (Hstep start [])|].
    apply (Hremove [("grammars-v4/abnf/pom.xml", None)]
                   [("grammars-v4/proj/pom.xml", None)]).
    reflexivity.
Defined.

(** C8, as stated, fails: the descriptor at the root is parsed with
    success, has no include, and no line is logged for it, because it has
    no plugin either. *)
Lemma empty_includes_without_plugin_not_logged :
  ("grammars-v4/pom.xml", inr noPlugin)
    ∈ parsed (main envParent orderListed start).1 /\
  Includes noPlugin = [] /\
  logged (main envParent orderListed start).1 = [] /\
  (main envParent orderListed start).2 = inr tt.
Proof.
  split; [|split; [|split]].
  - vm_compute. left.
  - reflexivity.
  - vm_compute. reflexivity.
  - vm_compute. reflexivity.
Qed.

(** The generated files of the example of the spec. *)
Lemma generated_files_follow_projects_witness :
  GeneratedFiles (aggregated envTwo) !! "proj"
  = Some ["proj/A_lexer.go"; "proj/A_parser.go"].
Proof.
  destruct (generated_files_follow_projects envTwo orderListed
              (aggregate envTwo orderListed start).1 (aggregated envTwo))
    as [_ Hfiles].
  - intros m. split; reflexivity.
  - vm_compute. reflexivity.
  - apply (Hfiles "proj" proj). vm_compute. reflexivity.
Defined.

(** A grammar file of the tree is passed over. *)
Lemma other_entries_are_passed_over_witness :
  walkFn envTwo "grammars-v4/abnf/Abnf.g4" None start = (start, inr None) /\
  ("grammars-v4/abnf/Abnf.g4", inr abnf)
    ∉ parsed (main envTwo orderListed start).1.
Proof.
  destruct (other_entries_are_passed_over envTwo orderListed
              "grammars-v4/abnf/Abnf.g4") as (Hstep & _ & Hnever).
  - reflexivity.
  - split; [apply Hstep|apply Hnever].
Defined.

(** * More of the program *)

(** ** Strings *)

Lemma string_app_nil_l s : "" +:+ s = s.
Proof. reflexivity. Qed.

Lemma string_app_cons c s t : String c s +:+ t = String c (s +:+ t).
Proof. reflexivity. Qed.

Lemma string_app_nil_r s : s +:+ "" = s.
Proof.
  induction s as [|c s IH]; [done|]. by rewrite string_app_cons, IH.
Qed.

Lemma string_app_assoc s t u : (s +:+ t) +:+ u = s +:+ (t +:+ u).
Proof.
  induction s as [|c s IH]; [done|]. by rewrite !string_app_cons, IH.
Qed.

Lemma string_length_app s t :
  String.length (s +:+ t) = String.length s + String.length t.
Proof.
  induction s as [|c s IH]; [done|]. rewrite string_app_cons. simpl.
  by rewrite IH.
Qed.

Lemma substring_all s : String.substring 0 (String.length s) s = s.
Proof. induction s as [|c s IH]; [done|]. simpl. by rewrite IH. Qed.

Lemma substring_skip pre m s :
  String.substring (String.length pre) m (pre +:+ s) = String.substring 0 m s.
Proof.
  induction pre as [|c pre IH]; [done|]. rewrite string_app_cons. simpl.
  exact IH.
Qed.

Lemma substring_split n s :
  n <= String.length s ->
  s = String.substring 0 n s
      +:+ String.substring n (String.length s - n) s.
Proof.
  revert n. induction s as [|c s IH]; intros n Hn.
  { simpl in Hn. assert (n = 0) as -> by lia. done. }
  destruct n as [|n].
  - simpl. by rewrite substring_all.
  - simpl in *. rewrite string_app_cons. f_equal. apply IH. lia.
Qed.

(** [strings.HasSuffix]: the string ends with the suffix. *)
Lemma HasSuffix_spec s suffix :
  HasSuffix s suffix = true <-> exists pre, s = pre +:+ suffix.
Proof.
  unfold HasSuffix. rewrite andb_true_iff, Nat.leb_le, String.eqb_eq. split.
  - intros [Hle Hsub].
    exists (String.substring 0 (String.length s - String.length suffix) s).
    pose proof (substring_split (String.length s - String.length suffix) s)
      as Hsplit.
    replace (String.length s - (String.length s - String.length suffix))
      with (String.length suffix) in Hsplit by lia.
    rewrite Hsub in Hsplit. apply Hsplit. lia.
  - intros [pre ->]. rewrite string_length_app. split; [lia|].
    replace (String.length pre + String.length suffix - String.length suffix)
      with (String.length pre) by lia.
    by rewrite substring_skip, substring_all.
Qed.

(** ** The ignore list *)

Lemma onIgnoreList_from_spec ignores path :
  onIgnoreList_from ignores path = true <->
  exists ignore dir,
    ignore ∈ ignores /\ path = dir +:+ "/" +:+ ignore +:+ "/pom.xml".
Proof.
  induction ignores as [|ignore rest IH]; simpl.
  { split; [done|]. intros (? & ? & Hin & _). by apply elem_of_nil in Hin. }
  destruct (HasSuffix path ("/" +:+ ignore +:+ "/pom.xml")) eqn:Hs.
  - split; [|done]. intros _. apply HasSuffix_spec in Hs as [dir ->].
    exists ignore, dir. split; [left|done].
  - rewrite IH. split.
    + intros (i & dir & Hin & ->). exists i, dir. split; [by right|done].
    + intros (i & dir & Hin & ->). apply elem_of_cons in Hin as [->|Hin].
      * assert (HasSuffix (dir +:+ "/" +:+ ignore +:+ "/pom.xml")
                          ("/" +:+ ignore +:+ "/pom.xml") = true) as Habs.
        { apply HasSuffix_spec. by exists dir. }
        congruence.
      * by exists i, dir.
Qed.

(** The ignore list names the descriptor that sits directly in a directory
    called [objc] or [swift-fin], at any depth, and nothing else; such a
    path always ends in [/pom.xml], so testing the list inside the
    [/pom.xml] branch of the walk loses none of them. *)
Theorem ignored_paths_are_descriptors_of_ignored_projects path :
  (onIgnoreList path = true <->
   exists ignore dir,
     ignore ∈ IGNORE /\ path = dir +:+ "/" +:+ ignore +:+ "/pom.xml") /\
  (onIgnoreList path = true -> HasSuffix path "/pom.xml" = true).
Proof.
  split; [apply onIgnoreList_from_spec|].
  intros Hi. apply onIgnoreList_from_spec in Hi as (ignore & dir & _ & ->).
  apply HasSuffix_spec. exists (dir +:+ "/" +:+ ignore).
  by rewrite !string_app_assoc.
Qed.

(** ** The template function [Concat] *)

Lemma fold_append_acc l acc :
  fold_left (fun results s => results +:+ s) l acc
  = acc +:+ fold_left (fun results s => results +:+ s) l "".
Proof.
  revert acc. induction l as [|s l IH]; intros acc; simpl.
  - by rewrite string_app_nil_r.
  - rewrite (IH (acc +:+ s)), (IH ("" +:+ s)), string_app_nil_l.
    by rewrite string_app_assoc.
Qed.

Lemma fold_append_Concat l acc :
  fold_left String.append l acc = acc +:+ Concat l.
Proof. unfold Concat. apply fold_append_acc. Qed.

Lemma Concat_append l1 l2 : Concat (l1 ++ l2) = Concat l1 +:+ Concat l2.
Proof.
  unfold Concat at 1. rewrite fold_left_app.
  change (fold_left (fun results s => results +:+ s) l1 "") with (Concat l1).
  apply fold_append_Concat.
Qed.

(** [Concat] of its arguments in two groups is the two results appended;
    of one argument it is that argument, and of none the empty string. *)
Theorem Concat_app l1 l2 :
  Concat (l1 ++ l2) = Concat l1 +:+ Concat l2 /\
  (forall s, Concat [s] = s) /\
  Concat [] = "".
Proof.
  split; [apply Concat_append|split; [intros s|]; reflexivity].
Qed.

(** ** The ends of a run *)

Section EndsOfRun.
Context {Project : Type} `{ProjectAPI Project}.
Variable env : Env Project.
Variable order : MapOrder Project.

(** Whatever the aggregation ends with, it has not touched [Makefile]. *)
Lemma aggregate_Makefile : Makefile (aggregate env order start).1 = None.
Proof.
  rewrite aggregate_unfold.
  destruct (Walk_effect env (walked env)) as (calls & logs & r & Heq & _).
  rewrite Heq. destruct r as [e|]; [done|].
  pose proof (generatedLoop_world
                (rangeGenerated order (projects (extend start calls logs)))
                ∅ (extend start calls logs)) as Hg.
  destruct (generatedLoop _ ∅ _) as [w2 [f|gf]]; simpl in Hg; by subst w2.
Qed.

(** An error of the walk itself at some entry, after entries walked without
    error: the function of the walk hands it back without looking at the
    path, and the run ends with the fatal error of the walk, in the world the
    earlier entries left: nothing is parsed at that entry or after it, and
    [Makefile] is untouched. *)
Theorem walk_error_aborts pre path post e w :
  walked env = pre ++ (path, Some e) :: post ->
  Walk (walkFn env) pre start = (w, inr None) ->
  main env order start = (w, inl (FailedToWalk e)) /\ Makefile w = None.
Proof.
  intros Hw Hpre. split.
  - by rewrite main_unfold, Hw, Walk_app, Hpre.
  - destruct (Walk_effect env pre) as (calls & logs & r & Heq & _).
    rewrite Heq in Hpre. by injection Hpre as <- _.
Qed.

(** When [os.Create] fails after a finished aggregation, the run ends with
    the fatal error of the creation, the template is not executed and the
    world is the one of the aggregation, [Makefile] untouched. *)
Theorem create_failure_is_fatal w data e :
  aggregate env order start = (w, inr data) ->
  createError env = Some e ->
  main env order start = (w, inl (FailedToCreate e)) /\ Makefile w = None.
Proof.
  intros Hagg Hc. split.
  - rewrite main_aggregate_render, Hagg. unfold render, bind, osCreate.
    by rewrite Hc.
  - pose proof aggregate_Makefile as Hmk. by rewrite Hagg in Hmk.
Qed.

(** When the aggregation finishes, the file is created and no write of the
    execution fails, [main] returns and [Makefile] holds the whole rendering
    of the template data. *)
Theorem complete_run_writes_rendering w data :
  aggregate env order start = (w, inr data) ->
  createError env = None ->
  (forall j, j < length (pieces data) -> writeError env j = None) ->
  main env order start =
    ({| projects := projects w; parsed := parsed w; logged := logged w;
        Makefile := Some (rendered data) |}, inr tt).
Proof.
  intros Hagg Hc Hw.
  rewrite main_aggregate_render, Hagg.
  unfold render, bind, osCreate, Execute. rewrite Hc.
  rewrite writePieces_all by done. reflexivity.
Qed.

(** What the writes leave in the file, whether they end well or not: the
    first pieces, up to some number of them. *)
Lemma writePieces_written ps n (w : World Project) :
  exists k,
    k <= length ps /\
    Makefile (writePieces env ps n w).1
    = (fun text => fold_left String.append (take k ps) text) <$> Makefile w /\
    ((writePieces env ps n w).2 = inr None -> k = length ps).
Proof.
  revert n w. induction ps as [|s ps IH]; intros n w.
  { exists 0. simpl. split; [done|]. split; [|done]. by destruct (Makefile w). }
  simpl. destruct (writeError env n) as [e|].
  { exists 0. simpl. split; [lia|]. split; [|done]. by destruct (Makefile w). }
  unfold bind, fileWrite.
  set (w1 := {| projects := projects w |}).
  destruct (IH (S n) w1) as (k & Hk & Hmk & Hall).
  exists (S k). split; [simpl; lia|]. split.
  - rewrite Hmk. subst w1. simpl. by destruct (Makefile w).
  - intros Hr. simpl. f_equal. by apply Hall.
Qed.


(** [main] returns only after the whole rendering is in [Makefile]. *)
Theorem returns_only_after_full_rendering :
  (main env order start).2 = inr tt ->
  exists w data,
    aggregate env order start = (w, inr data) /\
    createError env = None /\
    Makefile (main env order start).1 = Some (rendered data).
Proof.
  intros Hret. rewrite main_aggregate_render in Hret |- *.
  destruct (aggregate env order start) as [w [f|data]]; [done|].
  exists w, data. split; [done|].
  unfold render, bind, osCreate, Execute in Hret |- *.
  destruct (createError env) as [e|]; [done|]. split; [done|].
  set (w1 := {| projects := projects w |}) in *.
  destruct (writePieces_written (pieces data) 0 w1) as (k & _ & Hk & Hall).
  destruct (writePieces env (pieces data) 0 w1) as [w2 [f|[e|]]];
    try done.
  unfold ret. cbn [fst snd] in *.
  rewrite Hk, (Hall eq_refl), firstn_all. reflexivity.
Qed.

End EndsOfRun.

(** ** The walk, as a whole *)

Section WalkAsAWhole.
Context {Project : Type} `{ProjectAPI Project}.
Variable env : Env Project.
Variable order : MapOrder Project.

(** The parser calls of a walk that returns no error. *)
Lemma Walk_descriptorCalls visits w w' :
  Walk (walkFn env) visits w = (w', inr None) ->
  parsed w' = parsed w ++ descriptorCalls env visits.
Proof.
  revert w. induction visits as [|[path err] rest IH]; intros w Hwalk.
  { injection Hwalk as <-. unfold descriptorCalls. simpl.
    by rewrite app_nil_r. }
  simpl in Hwalk. unfold bind in Hwalk.
  unfold descriptorCalls, isDescriptor. simpl.
  destruct err as [e|]; [by rewrite walkFn_walk_error in Hwalk|].
  destruct (HasSuffix path "/pom.xml") eqn:Hs; simpl.
  2:{ rewrite walkFn_not_pom in Hwalk by done. by apply IH. }
  destruct (onIgnoreList path) eqn:Hi; simpl.
  { rewrite walkFn_ignored in Hwalk by done. by apply IH. }
  pose proof (walkFn_calls env path w Hs Hi) as Hcalls.
  destruct (walkFn env path None w) as [w1 [f|[e|]]]; try done.
  apply IH in Hwalk. rewrite Hwalk. simpl in Hcalls. rewrite Hcalls.
  by rewrite <- app_assoc.
Qed.

(** In a run whose walk returned no error, the parser was called exactly on
    the visits without an error of the walk whose path ends in [/pom.xml]
    and is not on the ignore list: once for each, in the order of the walk,
    and on nothing else. *)
Theorem parser_calls_are_the_descriptors w :
  Walk (walkFn env) (walked env) start = (w, inr None) ->
  parsed (main env order start).1 = descriptorCalls env (walked env).
Proof.
  intros Hwalk. destruct (main_frame env order) as (_ & Hp & _).
  rewrite Hp, Hwalk. simpl. by rewrite (Walk_descriptorCalls _ _ _ Hwalk).
Qed.

(** The log follows the parser calls, visit by visit. *)
Lemma walkFn_logged path err w :
  logged w = omap skippedLine (parsed w) ->
  logged (walkFn env path err w).1
  = omap skippedLine (parsed (walkFn env path err w).1).
Proof.
  intros Hinv.
  destruct err as [e|]; [by rewrite walkFn_walk_error|].
  destruct (HasSuffix path "/pom.xml") eqn:Hs.
  2:{ by rewrite walkFn_not_pom. }
  destruct (onIgnoreList path) eqn:Hi.
  { by rewrite walkFn_ignored. }
  destruct (ParsePom env path) as [e|p] eqn:Hp.
  { rewrite (walkFn_parse_error env path e w Hs Hi Hp). simpl.
    rewrite omap_app, <- Hinv. simpl. by rewrite app_nil_r. }
  destruct (FoundAntlr4MavenPlugin p) eqn:Hf.
  2:{ rewrite (walkFn_no_plugin env path p w Hs Hi Hp Hf). simpl.
      rewrite omap_app, <- Hinv. unfold skippedLine. simpl.
      rewrite Hf. simpl. by rewrite app_nil_r. }
  destruct (Includes p) as [|i more] eqn:Hn.
  - rewrite (walkFn_no_includes env path p w Hs Hi Hp Hf Hn). simpl.
    rewrite omap_app, <- Hinv. unfold skippedLine. simpl.
    by rewrite Hf, Hn.
  - assert (Hr : retained p = true).
    { apply retained_true. split; [done|]. by rewrite Hn. }
    rewrite (walkFn_retained env path p w Hs Hi Hp Hr). simpl.
    rewrite omap_app, <- Hinv. unfold skippedLine. simpl.
    rewrite Hf, Hn. simpl. by rewrite app_nil_r.
Qed.

Lemma Walk_logged visits w :
  logged w = omap skippedLine (parsed w) ->
  logged (Walk (walkFn env) visits w).1
  = omap skippedLine (parsed (Walk (walkFn env) visits w).1).
Proof.
  revert w. induction visits as [|[path err] rest IH]; intros w Hinv; [done|].
  simpl. unfold bind.
  pose proof (walkFn_logged path err w Hinv) as Hstep.
  destruct (walkFn env path err w) as [w1 [f|[e|]]]; try done.
  by apply IH.
Qed.

(** At the end of any run the log has exactly one line for every
    successfully parsed descriptor that has the plugin and no include, in
    the order they were parsed, and no other line: a parse error, a
    descriptor without the plugin and a retained descriptor log nothing. *)
Theorem log_lists_the_skipped_descriptors :
  logged (main env order start).1
  = omap skippedLine (parsed (main env order start).1).
Proof.
  destruct (main_frame env order) as (_ & Hp & Hl). rewrite Hp, Hl.
  by apply Walk_logged.
Qed.

(** The map after the calls: under every name, the last project kept under
    it. *)
Lemma replay_last calls (m : gmap string Project) k :
  replay calls m !! k
  = match last (omap (keptAs k) calls) with
    | Some p => Some p
    | None => m !! k
    end.
Proof.
  induction calls as [|[path r] calls IH] using rev_ind; [done|].
  rewrite replay_app, omap_app. simpl. unfold keep, keptAs at 2. simpl.
  destruct r as [e|p]; simpl.
  { by rewrite app_nil_r. }
  destruct (retained p); simpl.
  2:{ by rewrite app_nil_r. }
  destruct (String.eqb_spec (PackageName p) k) as [->|Hne]; simpl.
  - by rewrite last_snoc, lookup_insert_eq.
  - by rewrite app_nil_r, lookup_insert_ne.
Qed.

(** At the end of any run, the aggregate mapping has under every name the
    last parsed descriptor that derived this name among those with the
    plugin and an include, and no entry for a name none of them derived:
    of several descriptors with one name, the last one parsed wins. *)
Theorem last_descriptor_of_a_name_wins k :
  projects (main env order start).1 !! k
  = last (omap (keptAs k) (parsed (main env order start).1)).
Proof.
  destruct (main_walked env order) as (calls & logs & Hc & Hp & _ & _).
  rewrite Hp, Hc, replay_last, lookup_empty.
  by destruct (last _).
Qed.

(** A successfully parsed descriptor without the plugin: the function of
    the walk records the call, logs nothing, keeps nothing and returns no
    error, so the walk goes on; no project of the aggregate mapping lacks
    the plugin; and the mapping, the log, the file and the end of the run
    are those of the run on the tree without that entry. *)
Theorem descriptor_without_plugin_skipped_silently path p :
  HasSuffix path "/pom.xml" = true ->
  onIgnoreList path = false ->
  ParsePom env path = inr p ->
  FoundAntlr4MavenPlugin p = false ->
  (forall w rest,
     let w' := {| projects := projects w;
                  parsed := parsed w ++ [(path, inr p)];
                  logged := logged w;
                  Makefile := Makefile w |} in
     walkFn env path None w = (w', inr None) /\
     Walk (walkFn env) ((path, None) :: rest) w = Walk (walkFn env) rest w') /\
  (forall name q,
     projects (main env order start).1 !! name = Some q ->
     FoundAntlr4MavenPlugin q = true) /\
  (forall pre post,
     walked env = pre ++ (path, None) :: post ->
     projects (main env order start).1
       = projects (main (withWalked env (pre ++ post)) order start).1 /\
     logged (main env order start).1
       = logged (main (withWalked env (pre ++ post)) order start).1 /\
     Makefile (main env order start).1
       = Makefile (main (withWalked env (pre ++ post)) order start).1 /\
     (main env order start).2
       = (main (withWalked env (pre ++ post)) order start).2).
Proof.
  intros Hs Hi Hp Hf.
  pose proof (walkFn_no_plugin env path p) as Hstep.
  assert (Hnot : retained p = false) by (unfold retained; by rewrite Hf).
  split; [|split].
  - intros w rest. simpl. unfold bind. rewrite (Hstep w) by done. done.
  - intros name q Hq.
    destruct (main_walked env order) as (calls & logs & _ & Hpr & _ & _).
    rewrite Hpr in Hq. eapply replay_retained in Hq.
    + by apply retained_true in Hq as [? _].
    + intros k q' Hempty. by rewrite lookup_empty in Hempty.
  - intros pre post Hw.
    destruct (Walk_effect env pre) as (c1 & l1 & r1 & Hpre & _).
    destruct (Walk_effect env post) as (c2 & l2 & r2 & Hpost & _).
    set (env' := withWalked env (pre ++ post)).
    assert (Hpre' : forall w, Walk (walkFn env') pre w
                              = (extend w c1 l1, inr r1)).
    { intros w. erewrite (Walk_ext _ (walkFn env) pre) by reflexivity.
      apply Hpre. }
    assert (Hpost' : forall w, Walk (walkFn env') post w
                               = (extend w c2 l2, inr r2)).
    { intros w. erewrite (Walk_ext _ (walkFn env) post) by reflexivity.
      apply Hpost. }
    destruct (main_frame env order) as (_ & _ & Hl).
    destruct (main_frame env' order) as (_ & _ & Hl').
    rewrite Hl, Hl'. clear Hl Hl'.
    destruct r1 as [e|].
    + assert (H1 : forall w, Walk (walkFn env) (walked env) w
                             = (extend w c1 l1, inr (Some e))).
      { intros w. by rewrite Hw, Walk_app, Hpre. }
      assert (H2 : forall w, Walk (walkFn env') (walked env') w
                             = (extend w c1 l1, inr (Some e))).
      { intros w. simpl. by rewrite Walk_app, Hpre'. }
      destruct (main_same_output order env env' c1 l1 c1 l1 (Some e))
        as (? & ? & ?); try done.
      by rewrite H1, H2.
    + assert (H1 : forall w, Walk (walkFn env) (walked env) w
                             = (extend w (c1 ++ (path, inr p) :: c2)
                                         (l1 ++ l2), inr r2)).
      { intros w. rewrite Hw, Walk_app, Hpre. simpl. unfold bind.
        rewrite (Hstep _ Hs Hi Hp Hf), Hpost.
        unfold extend. cbn [projects parsed logged Makefile].
        rewrite (replay_skip _ _ _ _ _ Hnot), replay_app.
        by rewrite <- !app_assoc. }
      assert (H2 : forall w, Walk (walkFn env') (walked env') w
                             = (extend w (c1 ++ c2) (l1 ++ l2), inr r2)).
      { intros w. simpl. by rewrite Walk_app, Hpre', Hpost', extend_extend. }
      destruct (main_same_output order env env'
                  (c1 ++ (path, inr p) :: c2) (l1 ++ l2)
                  (c1 ++ c2) (l1 ++ l2) r2) as (? & ? & ?); try done.
      { by apply replay_skip. }
      by rewrite H1, H2.
Qed.

End WalkAsAWhole.

(** ** The template and the mapping *)

Section TemplateFacts.
Context {Project : Type} `{ProjectAPI Project}.

Lemma sortStrings_elem_of l k : k ∈ sortStrings l <-> k ∈ l.
Proof. unfold sortStrings. by rewrite merge_sort_Permutation. Qed.

Lemma key_elem_of (m : gmap string Project) k :
  k ∈ (map_to_list m).*1 <-> is_Some (m !! k).
Proof. by apply (range_key m). Qed.

(** The projects a [range] of the template visits: the entries of the map,
    each once, in the increasing order of their names. *)
Lemma rangeSorted_fst (m : gmap string Project) :
  (rangeSorted m).*1 = sortStrings (map_to_list m).*1.
Proof.
  unfold rangeSorted.
  assert (Hgen : forall l : list string,
    (forall k, k ∈ l -> is_Some (m !! k)) ->
    (omap (fun name => (fun p => (name, p)) <$> m !! name) l).*1 = l).
  { induction l as [|k l IH]; intros Hl; [done|]. simpl.
    destruct (Hl k) as [p Hp]; [left|]. rewrite Hp. simpl. f_equal.
    apply IH. intros k' Hk'. apply Hl. by right. }
  apply Hgen. intros k Hk. by apply key_elem_of, sortStrings_elem_of.
Qed.

Lemma rangeSorted_elem_of (m : gmap string Project) k p :
  (k, p) ∈ rangeSorted m <-> m !! k = Some p.
Proof.
  unfold rangeSorted. rewrite list_elem_of_omap. split.
  - intros (name & _ & Hname). destruct (m !! name) as [q|] eqn:Hq; [|done].
    simpl in Hname. by injection Hname as -> ->.
  - intros Hp. exists k. split; [|by rewrite Hp].
    apply sortStrings_elem_of, key_elem_of. eauto.
Qed.

Lemma rangeSorted_Permutation (m : gmap string Project) :
  rangeSorted m ≡ₚ map_to_list m.
Proof.
  apply NoDup_Permutation.
  - apply (NoDup_fmap_1 fst). rewrite rangeSorted_fst. unfold sortStrings.
    rewrite merge_sort_Permutation. apply NoDup_fst_map_to_list.
  - apply NoDup_map_to_list.
  - intros [k p]. by rewrite rangeSorted_elem_of, elem_of_map_to_list.
Qed.

Variable env : Env Project.
Variable order : MapOrder Project.

(** After a finished aggregation the names of the [GRAMMARS] line are the
    names of the projects the two [range]s of the template visit, in the same
    order, each name once; and these [range]s visit every project of the
    mapping once. So [clean], which removes [$(GRAMMARS)], names the
    directories of exactly the projects that have rules. *)
Theorem grammars_line_matches_the_rules w data :
  MapOrder_ok order ->
  aggregate env order start = (w, inr data) ->
  Grammars data = (rangeSorted (Projects data)).*1 /\
  NoDup (Grammars data) /\
  rangeSorted (Projects data) ≡ₚ map_to_list (Projects data).
Proof.
  intros Hok Hagg.
  assert (Hg : Grammars data = (rangeSorted (Projects data)).*1).
  { rewrite aggregate_unfold in Hagg.
    destruct (Walk (walkFn env) (walked env) start) as [w1 [f|[e|]]];
      try done.
    destruct (generatedLoop _ ∅ w1) as [w2 [f|gf]]; [done|].
    injection Hagg as _ <-. simpl.
    rewrite rangeSorted_fst, appendNames_fst.
    apply sortStrings_perm. destruct (Hok (projects w1)) as [-> _]. done. }
  split; [done|]. split; [|apply rangeSorted_Permutation].
  rewrite Hg, rangeSorted_fst. unfold sortStrings.
  rewrite merge_sort_Permutation. apply NoDup_fst_map_to_list.
Qed.

(** The rendering of any template data has, for every project of its
    mapping, the test target of the project in the [test] line and the three
    rules of the project. *)
Theorem rendering_has_the_rules_of_every_project
        (data : templateData Project) name p :
  Projects data !! name = Some p ->
  (exists before after,
     rendered data = before +:+ Concat (rulesOf data name p) +:+ after) /\
  (exists before after,
     rendered data
     = before +:+ Concat [name; "/"; FilePrefix p; "_test.go "] +:+ after).
Proof.
  intros Hp. apply rangeSorted_elem_of in Hp.
  apply list_elem_of_split in Hp as (l1 & l2 & Hl).
  unfold rendered, pieces. split.
  - unfold projectRules. rewrite Hl, flat_map_app. simpl.
    set (b := flat_map _ l1). set (a := flat_map _ l2).
    change (nl :: nl :: name :: ?rest) with (rulesOf data name p ++ a).
    eexists (Concat ([TEXT_HEADER; Join (Grammars data) " "; TEXT_TEST]
                     ++ testTargets data ++ [nl +:+ nl] ++ b)),
            (Concat (a ++ [TEXT_RULES])).
    rewrite <- !Concat_append. f_equal.
    by rewrite <- !app_assoc.
  - unfold testTargets at 1. rewrite Hl, flat_map_app. simpl.
    set (b := flat_map _ l1). set (a := flat_map _ l2).
    eexists (Concat ([TEXT_HEADER; Join (Grammars data) " "; TEXT_TEST] ++ b)),
            (Concat (a ++ [nl +:+ nl] ++ projectRules data ++ [TEXT_RULES])).
    rewrite <- !Concat_append. f_equal.
    by rewrite <- !app_assoc.
Qed.

End TemplateFacts.

(** ** The sibling tool: [containAny] and the walk over the grammar files *)

Lemma prefix_spec a s :
  String.prefix a s = true <-> exists post, s = a +:+ post.
Proof.
  revert s. induction a as [|c a IH]; intros s.
  { destruct s; simpl; split; eauto. }
  destruct s as [|d s]; simpl.
  { split; [done|]. intros [post Hpost]. by rewrite string_app_cons in Hpost. }
  destruct (ascii_dec c d) as [->|Hne].
  - rewrite IH. split; intros [post Hpost]; exists post.
    + by rewrite string_app_cons, <- Hpost.
    + rewrite string_app_cons in Hpost. by injection Hpost.
  - split; [done|]. intros [post Hpost]. rewrite string_app_cons in Hpost.
    injection Hpost as -> _. done.
Qed.

Lemma Contains_spec s substr :
  Contains s substr = true <->
  exists pre post, s = pre +:+ substr +:+ post.
Proof.
  induction s as [|c s IH].
  - change (Contains "" substr) with (String.prefix substr "" || false).
    rewrite orb_false_r, prefix_spec. split.
    + intros [post Hpost]. by exists "", post.
    + intros (pre & post & Hs). destruct pre; [|done].
      rewrite string_app_nil_l in Hs. by exists post.
  - change (Contains (String c s) substr)
      with (String.prefix substr (String c s) || Contains s substr).
    rewrite orb_true_iff, prefix_spec, IH. split.
    + intros [[post Hpost]|(pre & post & Hs)].
      * by exists "", post.
      * exists (String c pre), post. by rewrite string_app_cons, <- Hs.
    + intros (pre & post & Hs). destruct pre as [|d pre].
      * left. by exists post.
      * right. rewrite string_app_cons in Hs. injection Hs as _ Hs.
        by exists pre, post.
Qed.

(** [containAny] holds exactly when one of the strings occurs somewhere in
    the name; with no string to look for it never holds, and an empty string
    among them makes it hold for every name. *)
Theorem containAny_spec name any :
  (containAny name any = true <->
   exists a pre post, a ∈ any /\ name = pre +:+ a +:+ post) /\
  containAny name [] = false /\
  ("" ∈ any -> containAny name any = true).
Proof.
  assert (Hspec : forall l,
    containAny name l = true <->
    exists a pre post, a ∈ l /\ name = pre +:+ a +:+ post).
  { induction l as [|a l IH]; simpl.
    { split; [done|]. intros (? & ? & ? & Hin & _).
      by apply elem_of_nil in Hin. }
    destruct (Contains name a) eqn:Hc.
    - split; [|done]. intros _. apply Contains_spec in Hc as (pre & post & ?).
      exists a, pre, post. split; [left|done].
    - rewrite IH. split.
      + intros (b & pre & post & Hin & ?). exists b, pre, post.
        split; [by right|done].
      + intros (b & pre & post & Hin & Hn).
        apply elem_of_cons in Hin as [->|Hin]; [|by exists b, pre, post].
        assert (Contains name a = true) as Habs
          by (apply Contains_spec; by exists pre, post).
        congruence. }
  split; [apply Hspec|]. split; [done|].
  intros Hin. apply Hspec. exists "", "", name. split; [done|].
  by rewrite !string_app_nil_l.
Qed.

Section ToolsFacts.
Context {Grammar : Type} `{GrammarAPI Grammar}.
Variable ToLower : string -> string.
Variable env : G4Env Grammar.

Lemma g4Inv_weaken visits visit w :
  g4Inv ToLower env visits w -> g4Inv ToLower env (visit :: visits) w.
Proof.
  intros [Hp Hg]. split; [|done]. intros path r Hin.
  destruct (Hp path r Hin) as (? & ? & ? & ?). repeat split; auto.
  by right.
Qed.

Lemma walkG4_inv visits path err w :
  g4Inv ToLower env visits w ->
  g4Inv ToLower env ((path, err) :: visits) (walkG4 ToLower env path err w).1 /\
  (forall e, (walkG4 ToLower env path err w).2 = inr (Some e) ->
     err = None /\ HasSuffix path ".g4" = true /\
     containAny path IGNORE_PATHS = false /\ ParseG4 env path = inl e).
Proof.
  intros Hinv. pose proof (g4Inv_weaken visits (path, err) w Hinv) as Hweak.
  unfold walkG4.
  destruct (containAny path IGNORE_PATHS) eqn:Hc; [by split|].
  destruct err as [e0|]; simpl; [by split|].
  destruct (HasSuffix path ".g4") eqn:Hs; simpl; [|by split].
  destruct Hweak as [Hp Hg].
  assert (Hcalls : forall q r,
    (q, r) ∈ g4parsed w ++ [(path, ParseG4 env path)] ->
    (q, None) ∈ (path, None) :: visits /\ HasSuffix q ".g4" = true /\
    containAny q IGNORE_PATHS = false /\ r = ParseG4 env q).
  { intros q r Hin. apply elem_of_app in Hin as [Hin|Hin]; [by apply Hp|].
    apply list_elem_of_singleton in Hin. injection Hin as -> ->.
    repeat split; auto. left. }
  assert (Hold : forall name l, g4s w !! name = Some l ->
    exists g q, l = [g] /\ ToLower (Name g) = name /\
                (q, inr g) ∈ g4parsed w ++ [(path, ParseG4 env path)]).
  { intros name l Hl. destruct (Hg name l Hl) as (g & q & ? & ? & ?).
    exists g, q. repeat split; auto. apply elem_of_app. by left. }
  destruct (ParseG4 env path) as [e|g4] eqn:Hparse.
  { split; [by split|]. intros e' He'. simpl in He'.
    injection He' as <-. done. }
  destruct (default [] (g4s w !! ToLower (Name g4))) as [|first more] eqn:Hd;
    simpl.
  2:{ split; [by split|]. done. }
  split; [|done]. split; [done|]. simpl. intros name l Hl.
  rewrite lookup_insert in Hl. case_decide as Hname; [|by apply Hold].
  injection Hl as <-. exists g4, path. split; [done|]. split; [done|].
  apply elem_of_app. right. left.
Qed.

Lemma g4Inv_mono l l' w :
  (forall v, v ∈ l -> v ∈ l') ->
  g4Inv ToLower env l w -> g4Inv ToLower env l' w.
Proof.
  intros Hsub [Hp Hg]. split; [|done]. intros path r Hin.
  destruct (Hp path r Hin) as (? & ? & ? & ?). repeat split; auto.
Qed.

Lemma WalkG4_app l1 l2 w :
  WalkG4 ToLower env (l1 ++ l2) w =
    match WalkG4 ToLower env l1 w with
    | (w', inr None) => WalkG4 ToLower env l2 w'
    | other => other
    end.
Proof.
  revert w. induction l1 as [|[path err] l1 IH]; intros w; [done|].
  simpl. destruct (walkG4 ToLower env path err w) as [w' [f|[e|]]]; auto.
Qed.

Lemma WalkG4_inv all visits w :
  (forall v, v ∈ visits -> v ∈ all) ->
  g4Inv ToLower env all w ->
  g4Inv ToLower env all (WalkG4 ToLower env visits w).1 /\
  (forall e, (WalkG4 ToLower env visits w).2 = inr (Some e) ->
     exists path,
       (path, None) ∈ all /\ HasSuffix path ".g4" = true /\
       containAny path IGNORE_PATHS = false /\ ParseG4 env path = inl e).
Proof.
  revert w. induction visits as [|[path err] rest IH]; intros w Hsub Hinv.
  { by split. }
  simpl.
  destruct (walkG4_inv all path err w Hinv) as [Hstep Herr].
  assert (Hin : (path, err) ∈ all) by (apply Hsub; left).
  assert (Hstep' : g4Inv ToLower env all (walkG4 ToLower env path err w).1).
  { eapply g4Inv_mono; [|exact Hstep]. intros v Hv.
    apply elem_of_cons in Hv as [->|Hv]; done. }
  destruct (walkG4 ToLower env path err w) as [w' [f|[e|]]]; simpl in *.
  - by split.
  - split; [done|]. intros e' He'. injection He' as <-.
    destruct (Herr e eq_refl) as (-> & ? & ? & ?). by exists path.
  - apply IH; [|done]. intros v Hv. apply Hsub. by right.
Qed.

(** The walk itself ends the run only for a second grammar of a name. *)
Lemma WalkG4_fatal visits w f :
  (WalkG4 ToLower env visits w).2 = inl f ->
  exists name first path, f = MultipleG4 name first path.
Proof.
  revert w. induction visits as [|[path err] rest IH]; intros w; [done|].
  simpl.
  destruct (walkG4 ToLower env path err w) as [w' [f'|[e|]]] eqn:Hstep;
    simpl; [|done|apply IH].
  intros [= <-]. unfold walkG4 in Hstep.
  destruct (containAny path IGNORE_PATHS); [done|].
  destruct ((if err is None then true else false) && HasSuffix path ".g4");
    [|done].
  destruct (ParseG4 env path) as [e|g4]; [done|].
  destruct (default [] (g4s w !! ToLower (Name g4))) as [|first more];
    [done|].
  injection Hstep as _ <-. eauto.
Qed.

Lemma g4Inv_start all : g4Inv ToLower env all g4start.
Proof.
  split.
  - intros path r Hin. by apply elem_of_nil in Hin.
  - intros name l Hl. simpl in Hl. by rewrite lookup_empty in Hl.
Qed.

Lemma findG4s_world :
  (findG4s ToLower env).1 = (WalkG4 ToLower env (g4visits env) g4start).1.
Proof.
  unfold findG4s.
  by destruct (WalkG4 ToLower env (g4visits env) g4start) as [w [f|[e|]]].
Qed.

(** The walk of the tool is never ended by an error of the walk itself: the
    function returns nil for such an entry and the walk goes on. When the
    tool ends with the fatal error of the walk, the error is the one
    [ParseG4] returned for a visited path that ends in [.g4] and holds none
    of the ignored strings. *)
Theorem g4_walk_fails_only_on_a_parse_error e :
  (findG4s ToLower env).2 = inl (G4FailedToWalk e) ->
  (exists path,
     (path, None) ∈ g4visits env /\ HasSuffix path ".g4" = true /\
     containAny path IGNORE_PATHS = false /\ ParseG4 env path = inl e) /\
  (forall path e' rest w,
     WalkG4 ToLower env ((path, Some e') :: rest) w
     = WalkG4 ToLower env rest w).
Proof.
  intros Hfatal. split.
  - destruct (WalkG4_inv (g4visits env) (g4visits env) g4start)
      as [_ Herr]; [done|apply g4Inv_start|].
    unfold findG4s in Hfatal.
    pose proof (WalkG4_fatal (g4visits env) g4start) as Hf.
    destruct (WalkG4 ToLower env (g4visits env) g4start) as [w [f|[e0|]]];
      simpl in *; try done.
    + destruct (Hf f eq_refl) as (? & ? & ? & ->). done.
    + injection Hfatal as ->. by apply Herr.
  - intros path e' rest w. simpl. unfold walkG4.
    by destruct (containAny path IGNORE_PATHS).
Qed.

(** However the walk of the tool ends, every entry of [g4s] is a list of
    exactly one grammar, stored under its name in lower case, and that
    grammar was parsed with success from a visited path that ends in [.g4]
    and holds none of the ignored strings. *)
Theorem g4s_lists_hold_one_grammar name l :
  g4s (findG4s ToLower env).1 !! name = Some l ->
  exists g path,
    l = [g] /\ ToLower (Name g) = name /\
    (path, inr g) ∈ g4parsed (findG4s ToLower env).1 /\
    (path, None) ∈ g4visits env /\
    HasSuffix path ".g4" = true /\
    containAny path IGNORE_PATHS = false /\
    ParseG4 env path = inr g.
Proof.
  rewrite findG4s_world. intros Hl.
  destruct (WalkG4_inv (g4visits env) (g4visits env) g4start)
    as [[Hp Hg] _]; [done|apply g4Inv_start|].
  destruct (Hg name l Hl) as (g & path & -> & Hname & Hin).
  destruct (Hp path (inr g) Hin) as (? & ? & ? & ?).
  exists g, path. repeat split; auto.
Qed.

(** A second grammar file whose name, in lower case, is already in [g4s]:
    the run ends there with the fatal error that shows the name, the grammar
    stored first and the path of the second; [g4s] is unchanged and nothing
    after that entry is parsed. *)
Theorem second_grammar_of_a_name_is_fatal pre path post g l w :
  g4visits env = pre ++ (path, None) :: post ->
  WalkG4 ToLower env pre g4start = (w, inr None) ->
  containAny path IGNORE_PATHS = false ->
  HasSuffix path ".g4" = true ->
  ParseG4 env path = inr g ->
  g4s w !! ToLower (Name g) = Some l ->
  exists first,
    l = [first] /\
    findG4s ToLower env =
      ({| g4s := g4s w; g4parsed := g4parsed w ++ [(path, inr g)] |},
       inl (MultipleG4 (ToLower (Name g)) first path)).
Proof.
  intros Hv Hpre Hc Hs Hparse Hl.
  destruct (WalkG4_inv pre pre g4start) as [[_ Hg] _];
    [done|apply g4Inv_start|].
  rewrite Hpre in Hg. simpl in Hg.
  destruct (Hg _ l Hl) as (first & _ & -> & _ & _).
  exists first. split; [done|].
  unfold findG4s. rewrite Hv, WalkG4_app, Hpre. simpl.
  unfold walkG4. rewrite Hc, Hs, Hparse, Hl. reflexivity.
Qed.

(** A path that holds one of the ignored strings: the parser is never
    called on it, and the tool runs as on the tree without that entry, also
    when the walk met an error there. *)
Theorem ignored_g4_paths_are_passed_over path :
  containAny path IGNORE_PATHS = true ->
  (forall r, (path, r) ∉ g4parsed (findG4s ToLower env).1) /\
  (forall pre post err,
     g4visits env = pre ++ (path, err) :: post ->
     findG4s ToLower env
     = findG4s ToLower (g4WithVisits env (pre ++ post))).
Proof.
  intros Hc. split.
  - intros r Hin. rewrite findG4s_world in Hin.
    destruct (WalkG4_inv (g4visits env) (g4visits env) g4start)
      as [[Hp _] _]; [done|apply g4Inv_start|].
    destruct (Hp path r Hin) as (_ & _ & Hc' & _). congruence.
  - intros pre post err Hv.
    assert (Hsame : forall l w,
      WalkG4 ToLower (g4WithVisits env (pre ++ post)) l w
      = WalkG4 ToLower env l w).
    { induction l as [|[q e] l IH]; intros w; [done|]. simpl.
      change (walkG4 ToLower (g4WithVisits env (pre ++ post)) q e w)
        with (walkG4 ToLower env q e w).
      destruct (walkG4 ToLower env q e w) as [w' [f|[e'|]]]; auto. }
    unfold findG4s. rewrite Hsame. simpl. rewrite Hv, !WalkG4_app.
    destruct (WalkG4 ToLower env pre g4start) as [w1 [f|[e|]]]; try done.
    simpl. unfold walkG4 at 1. by rewrite Hc.
Qed.

End ToolsFacts.

(** ** Concrete runs of the added properties *)

Lemma walk_error_aborts_witness :
  main envUnreadable orderListed start
  = (walkedWorld envUnreadable
       [("grammars-v4", None); ("grammars-v4/abnf/pom.xml", None)],
     inl (FailedToWalk "permission denied")) /\
  Makefile (walkedWorld envUnreadable
              [("grammars-v4", None); ("grammars-v4/abnf/pom.xml", None)])
  = None.
Proof.
  apply (walk_error_aborts envUnreadable orderListed
           [("grammars-v4", None); ("grammars-v4/abnf/pom.xml", None)]
           "grammars-v4/locked"
           [("grammars-v4/proj/pom.xml", None)]).
  - reflexivity.
  - vm_compute. reflexivity.
Defined.

Lemma create_failure_is_fatal_witness :
  main envReadOnly orderListed start
  = ((aggregate envReadOnly orderListed start).1,
     inl (FailedToCreate "read-only file system")) /\
  Makefile (aggregate envReadOnly orderListed start).1 = None.
Proof.
  apply (create_failure_is_fatal envReadOnly orderListed
           (aggregate envReadOnly orderListed start).1
           (aggregated envReadOnly)).
  - vm_compute. reflexivity.
  - reflexivity.
Defined.

Lemma complete_run_writes_rendering_witness :
  main envTwo orderListed start =
    ({| projects := projects (aggregate envTwo orderListed start).1;
        parsed := parsed (aggregate envTwo orderListed start).1;
        logged := logged (aggregate envTwo orderListed start).1;
        Makefile := Some (rendered (aggregated envTwo)) |}, inr tt).
Proof.
  apply (complete_run_writes_rendering envTwo orderListed
           (aggregate envTwo orderListed start).1 (aggregated envTwo)).
  - vm_compute. reflexivity.
  - reflexivity.
  - intros j _. reflexivity.
Defined.


Lemma returns_only_after_full_rendering_witness :
  exists w data,
    aggregate envTwo orderListed start = (w, inr data) /\
    createError envTwo = None /\
    Makefile (main envTwo orderListed start).1 = Some (rendered data).
Proof.
  apply (returns_only_after_full_rendering envTwo orderListed).
  vm_compute. reflexivity.
Defined.

Lemma parser_calls_are_the_descriptors_witness :
  parsed (main envIgnored orderListed start).1
  = [ ("grammars-v4/abnf/pom.xml", inr abnf);
      ("grammars-v4/proj/pom.xml", inr proj) ].
Proof.
  apply (parser_calls_are_the_descriptors envIgnored orderListed
           (walkedWorld envIgnored visitsIgnored)).
  vm_compute. reflexivity.
Defined.

Lemma descriptor_without_plugin_skipped_silently_witness :
  walkFn envParent "grammars-v4/pom.xml" None start
  = ({| projects := ∅;
        parsed := [("grammars-v4/pom.xml", inr noPlugin)];
        logged := [];
        Makefile := None |}, inr None) /\
  Makefile (main envParent orderListed start).1
  = Makefile (main (withWalked envParent [("grammars-v4", None)])
                   orderListed start).1.
Proof.
  destruct (descriptor_without_plugin_skipped_silently envParent orderListed
              "grammars-v4/pom.xml" noPlugin)
    as (Hstep & _ & Hremove).
  - reflexivity.
  - reflexivity.
  - reflexivity.
  - reflexivity.
  - split; [apply (Hstep start [])|].
    apply (Hremove [("grammars-v4", None)] []). reflexivity.
Defined.

Lemma grammars_line_matches_the_rules_witness :
  Grammars (aggregated envTwo)
  = (rangeSorted (Projects (aggregated envTwo))).*1.
Proof.
  apply (grammars_line_matches_the_rules envTwo orderListed
           (aggregate envTwo orderListed start).1 (aggregated envTwo)).
  - intros m. split; reflexivity.
  - vm_compute. reflexivity.
Defined.

Lemma rendering_has_the_rules_of_every_project_witness :
  exists before after,
    rendered (aggregated envTwo)
    = before +:+ Concat (rulesOf (aggregated envTwo) "proj" proj) +:+ after.
Proof.
  apply (rendering_has_the_rules_of_every_project
           (aggregated envTwo) "proj" proj).
  vm_compute. reflexivity.
Defined.

Lemma g4_walk_fails_only_on_a_parse_error_witness :
  exists path,
    (path, None) ∈ g4VisitsBad /\ HasSuffix path ".g4" = true /\
    containAny path IGNORE_PATHS = false /\
    parseG4Table path = inl "no grammar name".
Proof.
  apply (g4_walk_fails_only_on_a_parse_error lowerASCII (g4EnvOf g4VisitsBad)
           "no grammar name").
  vm_compute. reflexivity.
Defined.

Lemma g4s_lists_hold_one_grammar_witness :
  exists g path,
    [grammarJSON] = [g] /\ lowerASCII (Name g) = "json" /\
    (path, inr g)
      ∈ g4parsed (findG4s lowerASCII (g4EnvOf g4VisitsGood)).1 /\
    (path, None) ∈ g4VisitsGood /\
    HasSuffix path ".g4" = true /\
    containAny path IGNORE_PATHS = false /\
    parseG4Table path = inr g.
Proof.
  apply (g4s_lists_hold_one_grammar lowerASCII (g4EnvOf g4VisitsGood)
           "json" [grammarJSON]).
  vm_compute. reflexivity.
Defined.

Lemma second_grammar_of_a_name_is_fatal_witness :
  exists first,
    [grammarJSON] = [first] /\
    findG4s lowerASCII (g4EnvOf g4VisitsTwice) =
      ({| g4s := g4s (findG4s lowerASCII (g4EnvOf g4VisitsGood)).1;
          g4parsed :=
            g4parsed (findG4s lowerASCII (g4EnvOf g4VisitsGood)).1
            ++ [("grammars-v4/json2/Json.g4", inr grammarJson)] |},
       inl (MultipleG4 (lowerASCII (Name grammarJson)) first
                       "grammars-v4/json2/Json.g4")).
Proof.
  apply (second_grammar_of_a_name_is_fatal lowerASCII (g4EnvOf g4VisitsTwice)
           g4VisitsGood "grammars-v4/json2/Json.g4" [] grammarJson
           [grammarJSON] (findG4s lowerASCII (g4EnvOf g4VisitsGood)).1).
  - reflexivity.
  - vm_compute. reflexivity.
  - reflexivity.
  - reflexivity.
  - reflexivity.
  - vm_compute. reflexivity.
Defined.

Lemma ignored_g4_paths_are_passed_over_witness :
  findG4s lowerASCII (g4EnvOf g4VisitsIgnored)
  = findG4s lowerASCII
      (g4WithVisits (g4EnvOf g4VisitsIgnored)
         [ ("grammars-v4/abnf/Abnf.g4", None);
           ("grammars-v4/json/JSON.g4", None) ]).
Proof.
  destruct (ignored_g4_paths_are_passed_over lowerASCII
              (g4EnvOf g4VisitsIgnored) "grammars-v4/python3-js/Python3.g4")
    as [_ Hremove].
  - reflexivity.
  - apply (Hremove [("grammars-v4/abnf/Abnf.g4", None)]
                   [("grammars-v4/json/JSON.g4", None)]
                   (Some "permission denied")).
    reflexivity.
Defined.
